(** * Agent registry of the iotinator master: src/iotinator/AgentCollection.cpp

    A shallow embedding of [AgentCollection]: registration ([add]),
    refresh, listing, ping and the deferred renaming of agents whose
    name collides with the one of another agent. *)

From Stdlib Require Import String Ascii ZArith List Sorting.Sorted.
From stdpp Require Import base list strings pretty.
Import ListNotations.

Local Open Scope string_scope.
Set Warnings "-register-all".

(** ** JSON values, as ArduinoJson 5 holds them *)

Inductive JsonValue : Type :=
| JNull
| JBool (b : bool)
| JInt (z : Z)
| JStr (s : string)
| JObj (o : list (string * JsonValue)).

Definition JsonObject := list (string * JsonValue).

(** [root[key]]: the first member with that key. *)
Fixpoint jget (o : JsonObject) (k : string) : option JsonValue :=
  match o with
  | [] => None
  | (k', v) :: o' => if String.eqb k k' then Some v else jget o' k
  end.

(** [obj[key] = value] and [createNestedObject(key)]: replaces the value of an
    existing member, otherwise appends a new member. *)
Fixpoint jset (o : JsonObject) (k : string) (v : JsonValue) : JsonObject :=
  match o with
  | [] => [(k, v)]
  | (k', v') :: o' =>
      if String.eqb k k' then (k', v) :: o' else (k', v') :: jset o' k v
  end.

(** [(const char* )root[key]]: NULL when absent or not a string. *)
Definition as_cstr (v : option JsonValue) : option string :=
  match v with Some (JStr s) => Some s | _ => None end.

(** [(bool)root[key]]: false when absent. *)
Definition as_bool (v : option JsonValue) : bool :=
  match v with
  | Some (JBool b) => b
  | Some (JInt z) => negb (z =? 0)%Z
  | _ => false
  end.

(** [(int)root[key]]: 0 when absent. *)
Definition as_int (v : option JsonValue) : Z :=
  match v with
  | Some (JInt z) => z
  | Some (JBool b) => if b then 1%Z else 0%Z
  | _ => 0%Z
  end.

(** A [const char*] stored into a JSON object: NULL is stored as null. *)
Definition cstr_value (s : option string) : JsonValue :=
  match s with Some s => JStr s | None => JNull end.

(** ** Printing JSON, as ArduinoJson 5's [printTo] does it

    The serializer writes compact JSON: members as ["key":value] separated
    by commas, strings between double quotes with [Encoding::escapeChar]
    applied, a NULL [const char*] as [null], integers in decimal. *)

Definition dquote : ascii := Ascii.ascii_of_nat 34.
Definition backslash : ascii := Ascii.ascii_of_nat 92.

(** [Encoding::escapeChar]: the character written after a backslash for the
    seven escaped characters, none for the others. *)
Definition escapeChar (c : ascii) : option ascii :=
  let n := nat_of_ascii c in
  if Nat.eqb n 34 then Some dquote
  else if Nat.eqb n 92 then Some backslash
  else if Nat.eqb n 8 then Some "b"%char
  else if Nat.eqb n 12 then Some "f"%char
  else if Nat.eqb n 10 then Some "n"%char
  else if Nat.eqb n 13 then Some "r"%char
  else if Nat.eqb n 9 then Some "t"%char
  else None.

(** The loop of [JsonWriter::writeString] over the characters. *)
Fixpoint writeChars (s : string) : string :=
  match s with
  | EmptyString => EmptyString
  | String c s' =>
      match escapeChar c with
      | Some e => String backslash (String e (writeChars s'))
      | None => String c (writeChars s')
      end
  end.

Definition writeString (s : string) : string :=
  String dquote (writeChars s +:+ String dquote EmptyString).

(** [JsonSerializer]: the text of a value. *)
Fixpoint serialize (v : JsonValue) : string :=
  match v with
  | JNull => "null"
  | JBool b => if b then "true" else "false"
  | JInt z => pretty z
  | JStr s => writeString s
  | JObj o =>
      let fix members (o : list (string * JsonValue)) (first : bool) : string :=
        match o with
        | [] => EmptyString
        | (k, v) :: o' =>
            (if first then EmptyString else ",") +:+ writeString k +:+ ":" +:+
            serialize v +:+ members o' false
        end in
      "{" +:+ members o true +:+ "}"
  end.

(** The first [n] characters of [s] (all of them when [s] is shorter). *)
Fixpoint str_take (n : Z) (s : string) : string :=
  match s with
  | EmptyString => EmptyString
  | String c s' => if (n <=? 0)%Z then EmptyString else String c (str_take (n - 1) s')
  end.

(** [printTo(char* buffer, size_t bufferSize)]: the text left in [buffer].
    Its [StaticStringBuilder] stores at most [bufferSize - 1] characters and
    the final NUL, and drops the rest; [size_t] has 32 bits on the ESP8266. *)
Definition printTo (v : JsonValue) (bufferSize : Z) : string :=
  str_take (bufferSize mod 2 ^ 32 - 1)%Z (serialize v).

(** The C conversions between [int] and [bool]. *)
Definition int_of_bool (b : bool) : Z := if b then 1%Z else 0%Z.
Definition bool_of_int (z : Z) : bool := negb (z =? 0)%Z.

(** The JSON tags of XIOTModuleJsonTag (declared in the XIOTModule library). *)
Module XIOTModuleJsonTag.
Definition name := "name".
Definition MAC := "MAC".
Definition ip := "ip".
Definition canSleep := "canSleep".
Definition custom := "custom".
Definition uiClassName := "uiClassName".
Definition heap := "heap".
Definition pingPeriod := "pingPeriod".
Definition pong := "pong".
End XIOTModuleJsonTag.

(** ** C library functions used by [renameOne] *)

Definition is_space (c : ascii) : bool :=
  let n := nat_of_ascii c in
  (Nat.eqb n 32 || (Nat.leb 9 n && Nat.leb n 13))%bool.

Fixpoint skip_space (s : string) : string :=
  match s with
  | String c s' => if is_space c then skip_space s' else s
  | EmptyString => EmptyString
  end.

Fixpoint atoi_digits (s : string) (acc : Z) : Z :=
  match s with
  | String c s' =>
      let n := Z.of_nat (nat_of_ascii c) in
      if ((48 <=? n) && (n <=? 57))%Z%bool
      then atoi_digits s' (acc * 10 + (n - 48))%Z else acc
  | EmptyString => acc
  end.

(** [atoi] (the overflow of a too long digit string, undefined in C, is not
    modelled). *)
Definition atoi (s : string) : Z :=
  match skip_space s with
  | String c r =>
      if Ascii.eqb c "-" then (- atoi_digits r 0)%Z
      else if Ascii.eqb c "+" then atoi_digits r 0
      else atoi_digits (String c r) 0
  | EmptyString => 0%Z
  end.

(** [strtok] with the delimiter set ["_"]: the leading delimiters it skips and
    the rest of the string. *)
Fixpoint strtok_lead (s : string) : string * string :=
  match s with
  | String c s' =>
      if Ascii.eqb c "_" then let (l, r) := strtok_lead s' in (String c l, r)
      else (EmptyString, s)
  | EmptyString => (EmptyString, EmptyString)
  end.

(** The token up to the next ["_"] (overwritten by NUL) and the position
    where the next call resumes. *)
Fixpoint strtok_token (s : string) : string * string :=
  match s with
  | String c s' =>
      if Ascii.eqb c "_" then (EmptyString, s')
      else let (t, r) := strtok_token s' in (String c t, r)
  | EmptyString => (EmptyString, EmptyString)
  end.

(** The first part of [renameOne]:
<<
  strcpy(alpha, agent->getName());
  char *withUnderscore = strtok(alpha, "_");
  if(withUnderscore != NULL) {
    char *digitPtr = strtok(NULL, "_");
    if(digitPtr != NULL) digit = atoi(digitPtr);
  }
>>
    returns the C string left in [alpha] and [digit]. *)
Definition split_name (name : string) : string * Z :=
  let (lead, r) := strtok_lead name in
  match r with
  | EmptyString => (name, 0%Z)
  | _ =>
      let (tok, rest) := strtok_token r in
      let alpha := lead +:+ tok in
      let (_, r2) := strtok_lead rest in
      match r2 with
      | EmptyString => (alpha, 0%Z)
      | _ => let (tok2, _) := strtok_token r2 in (alpha, atoi tok2)
      end
  end.

(** [sprintf(newName, "%s_%d", alpha, digit)] *)
Definition candidate (alpha : string) (digit : Z) : string :=
  alpha +:+ "_" +:+ pretty digit.

(** ** Agents *)

Definition Ptr := nat.

Record Agent := mkAgent {
  a_name : string;
  a_mac : string;
  a_ip : string;
  a_canSleep : bool;
  a_custom : option string;
  a_uiClassName : option string;
  a_heap : Z;
  a_pingPeriod : Z;
  a_pong : bool;
  a_toRename : bool
}.

(** Modelled from the spec: the Agent class (Agent.cpp is not part of the
    sources). [new Agent(name, mac, module)] records the name and the mac.
    Neither the spec nor the sources give the initial values of the other
    fields; they are set to empty, false or 0 here, a choice of this model.
    [add] overwrites all of them but [pong] and [toRename]. *)
Definition new_Agent (name mac : string) : Agent :=
  mkAgent name mac "" false None None 0 0 false false.

(** Modelled from the spec: the setters of the Agent class, each of which
    overwrites its own field only. *)
Definition setName (v : string) (a : Agent) : Agent :=
  mkAgent v (a_mac a) (a_ip a) (a_canSleep a) (a_custom a) (a_uiClassName a)
    (a_heap a) (a_pingPeriod a) (a_pong a) (a_toRename a).
Definition setIP (v : string) (a : Agent) : Agent :=
  mkAgent (a_name a) (a_mac a) v (a_canSleep a) (a_custom a) (a_uiClassName a)
    (a_heap a) (a_pingPeriod a) (a_pong a) (a_toRename a).
Definition setCanSleep (v : bool) (a : Agent) : Agent :=
  mkAgent (a_name a) (a_mac a) (a_ip a) v (a_custom a) (a_uiClassName a)
    (a_heap a) (a_pingPeriod a) (a_pong a) (a_toRename a).
Definition setCustom (v : option string) (a : Agent) : Agent :=
  mkAgent (a_name a) (a_mac a) (a_ip a) (a_canSleep a) v (a_uiClassName a)
    (a_heap a) (a_pingPeriod a) (a_pong a) (a_toRename a).
Definition setUiClassName (v : option string) (a : Agent) : Agent :=
  mkAgent (a_name a) (a_mac a) (a_ip a) (a_canSleep a) (a_custom a) v
    (a_heap a) (a_pingPeriod a) (a_pong a) (a_toRename a).
Definition setHeap (v : Z) (a : Agent) : Agent :=
  mkAgent (a_name a) (a_mac a) (a_ip a) (a_canSleep a) (a_custom a)
    (a_uiClassName a) v (a_pingPeriod a) (a_pong a) (a_toRename a).
Definition setPingPeriod (v : Z) (a : Agent) : Agent :=
  mkAgent (a_name a) (a_mac a) (a_ip a) (a_canSleep a) (a_custom a)
    (a_uiClassName a) (a_heap a) v (a_pong a) (a_toRename a).
Definition setToRename (v : bool) (a : Agent) : Agent :=
  mkAgent (a_name a) (a_mac a) (a_ip a) (a_canSleep a) (a_custom a)
    (a_uiClassName a) (a_heap a) (a_pingPeriod a) (a_pong a) v.

(** Modelled from the spec: [Agent::renameTo(newName)] sets the name and
    clears the pending-rename flag. *)
Definition renameTo (v : string) (a : Agent) : Agent :=
  setToRename false (setName v a).

(** ** The agent map

    [agentMap] is a [std::map] from the mac string to [Agent*], ordered by
    [strcmp] (the order of [String.compare]). An entry holds the pointer, as
    an identity, together with the agent it points to: the map is the only
    owner of its agents. *)

Definition entry := (string * (Ptr * Agent))%type.
Definition agentMap := list entry.

(** [_agents.insert(agentPair(k, v))]: the new map, the pointer of the entry
    the returned iterator designates, and whether the pair was inserted. *)
Fixpoint map_insert (k : string) (v : Ptr * Agent) (m : agentMap)
    : agentMap * Ptr * bool :=
  match m with
  | [] => ([(k, v)], v.1, true)
  | (k', v') :: m' =>
      match String.compare k k' with
      | Lt => ((k, v) :: m, v.1, true)
      | Eq => (m, v'.1, false)
      | Gt => let '(r, p, b) := map_insert k v m' in ((k', v') :: r, p, b)
      end
  end.

(** [_agents.find(k)] *)
Fixpoint map_find (k : string) (m : agentMap) : option (Ptr * Agent) :=
  match m with
  | [] => None
  | (k', v) :: m' => if String.eqb k k' then Some v else map_find k m'
  end.

(** A call [agent->setX(..)] on the agent [map_find k] designates. *)
Fixpoint map_update (k : string) (f : Agent -> Agent) (m : agentMap) : agentMap :=
  match m with
  | [] => []
  | (k', (p, a)) :: m' =>
      if String.eqb k k' then (k', (p, f a)) :: m' else (k', (p, a)) :: map_update k f m'
  end.

(** The agent a pointer designates, and a call through that pointer. *)
Fixpoint ptr_find (p : Ptr) (m : agentMap) : option Agent :=
  match m with
  | [] => None
  | (_, (p', a)) :: m' => if Nat.eqb p p' then Some a else ptr_find p m'
  end.

Fixpoint ptr_update (p : Ptr) (f : Agent -> Agent) (m : agentMap) : agentMap :=
  match m with
  | [] => []
  | (k, (p', a)) :: m' =>
      if Nat.eqb p p' then (k, (p', f a)) :: m' else (k, (p', a)) :: ptr_update p f m'
  end.

(** [nameAlreadyExists(name, mac)]: some agent of the collection has this
    name on a different mac. *)
Definition nameAlreadyExists (m : agentMap) (name mac : string) : bool :=
  existsb (fun e : entry =>
    (String.eqb (a_name e.2.2) name && negb (String.eqb (a_mac e.2.2) mac))%bool) m.

(** ** AgentCollection *)

Module AgentCollection.

Record State := mkState {
  agents : agentMap;          (* _agents *)
  next_ptr : Ptr;             (* the address [new Agent] returns next *)
  listBufferSize : Z          (* _listBufferSize *)
}.

Definition getCount (st : State) : Z := Z.of_nat (length (agents st)).

(** [AgentCollection::AgentCollection(XIOTModule* module)]: no agent is
    registered. The constructor does not set [_listBufferSize], which keeps
    whatever the object holds ([lbs0]); [p0] is the address the first
    [new Agent] returns. *)
Definition create (lbs0 : Z) (p0 : Ptr) : State := mkState [] p0 lbs0.

Section Collection.

Local Open Scope Z_scope.

(** The parser of ArduinoJson ([jsonBuffer.parseObject(jsonStr)]; [None]
    when [root.success()] is false). *)
Variable parseObject : string -> option JsonObject.

(** The size constants of the XIOTModule library. *)
Variables LIST_BUFFER_SIZE MAC_ADDR_MAX_LENGTH NAME_MAX_LENGTH
  DOUBLE_IP_MAX_LENGTH UI_CLASS_NAME_MAX_LENGTH : Z.

Definition _jsonAttributeSize (moduleCount : Z) (attrName : string) (valueSize : Z) : Z :=
  moduleCount * (valueSize + Z.of_nat (String.length attrName) + 2 + 1 + 1).

Definition _refreshListBufferSize (st : State) : State :=
  let moduleCount := getCount st in
  let s := LIST_BUFFER_SIZE in
  let s := s + _jsonAttributeSize moduleCount XIOTModuleJsonTag.MAC MAC_ADDR_MAX_LENGTH in
  let s := s + _jsonAttributeSize moduleCount XIOTModuleJsonTag.name NAME_MAX_LENGTH in
  let s := s + _jsonAttributeSize moduleCount XIOTModuleJsonTag.ip DOUBLE_IP_MAX_LENGTH in
  let s := s + _jsonAttributeSize moduleCount XIOTModuleJsonTag.canSleep 5 in
  let s := s + _jsonAttributeSize moduleCount XIOTModuleJsonTag.pong 5 in
  let s := s + _jsonAttributeSize moduleCount XIOTModuleJsonTag.uiClassName UI_CLASS_NAME_MAX_LENGTH in
  let s := s + _jsonAttributeSize moduleCount XIOTModuleJsonTag.heap 4 in
  mkState (agents st) (next_ptr st) s.

(** The updates of [add] on the registered agent, in the order of the code
    (from [setCanSleep] to [setName]). *)
Definition add_update (root : JsonObject) (name ip : string) (a : Agent) : Agent :=
  let a := setCanSleep (as_bool (jget root XIOTModuleJsonTag.canSleep)) a in
  let a := setCustom (as_cstr (jget root XIOTModuleJsonTag.custom)) a in
  let a := setUiClassName (as_cstr (jget root XIOTModuleJsonTag.uiClassName)) a in
  let a := setHeap (as_int (jget root XIOTModuleJsonTag.heap)) a in
  let a := setPingPeriod (as_int (jget root XIOTModuleJsonTag.pingPeriod)) a in
  let a := setIP ip a in
  setName name a.

(** [Agent* AgentCollection::add(char* jsonStr)]: the new state and the
    returned pointer ([None] for NULL). The display and the 500 answer on a
    parse failure are not part of the state. The agent [agentIt.first->second]
    designates is the one at key [mac], which the setters update. *)
Definition add (st : State) (jsonStr : string) : State * option Ptr :=
  match parseObject jsonStr with
  | None => (st, None)
  | Some root =>
      match as_cstr (jget root XIOTModuleJsonTag.name),
            as_cstr (jget root XIOTModuleJsonTag.MAC),
            as_cstr (jget root XIOTModuleJsonTag.ip) with
      | Some name, Some mac, Some ip =>
          let agent := new_Agent name mac in
          let '(m1, p, _) := map_insert mac (next_ptr st, agent) (agents st) in
          let m2 := map_update mac (add_update root name ip) m1 in
          let m3 := if nameAlreadyExists m2 name mac
                    then map_update mac (setToRename true) m2 else m2 in
          (_refreshListBufferSize (mkState m3 (S (next_ptr st)) (listBufferSize st)), Some p)
      | _, _, _ => (st, None)
      end
  end.

(** [Agent* AgentCollection::refresh(char* jsonStr)] *)
Definition refresh (st : State) (jsonStr : string) : State * option Ptr :=
  match parseObject jsonStr with
  | None => (st, None)
  | Some root =>
      match as_cstr (jget root XIOTModuleJsonTag.MAC) with
      | None => (st, None)
      | Some mac =>
          match map_find mac (agents st) with
          | None => (st, None)
          | Some (p, _) =>
              (mkState (map_update mac (setCustom (as_cstr (jget root XIOTModuleJsonTag.custom)))
                          (agents st))
                       (next_ptr st) (listBufferSize st), Some p)
          end
      end
  end.


(** The loop of [renameOne]:
<<
  while (!ok && strlen(newName) < NAME_MAX_LENGTH) {
    sprintf(newName, "%s_%d", alpha, ++digit);
    if(!nameAlreadyExists(newName, agent->getMAC())) ok = true;
  }
>>
    [Some (Some n)]: [ok] with [newName = n]; [Some None]: the loop stopped
    on the length of [newName]; [None]: out of fuel, which the fuel
    [renameOne] gives never reaches (see [rename_loop_fuel]). *)
Fixpoint rename_loop (fuel : nat) (m : agentMap) (mac alpha : string)
    (digit : Z) (newName : string) : option (option string) :=
  match fuel with
  | O => None
  | S fuel' =>
      if Z.of_nat (String.length newName) <? NAME_MAX_LENGTH then
        let nn := candidate alpha (digit + 1) in
        if negb (nameAlreadyExists m nn mac) then Some (Some nn)
        else rename_loop fuel' m mac alpha (digit + 1) nn
      else Some None
  end.

(** [void AgentCollection::renameOne(Agent *agent)]. [newName0] is the content
    of the buffer [newName], which the code reads (through [strlen]) before
    writing it. Each failed candidate is the name of an agent, and distinct
    candidates are distinct names, so the loop stops within
    [1 + getCount()] rounds. *)
Definition renameOne (newName0 : string) (st : State) (p : Ptr) : State :=
  match ptr_find p (agents st) with
  | None => st
  | Some a =>
      let '(alpha, digit) := split_name (a_name a) in
      match rename_loop (S (length (agents st))) (agents st) (a_mac a) alpha digit newName0 with
      | Some (Some nn) => mkState (ptr_update p (renameTo nn) (agents st)) (next_ptr st) (listBufferSize st)
      | _ => st
      end
  end.

(** The test of [ping()] on one agent:
<<
    canSleep = (bool)it->second->getCanSleep();
    pingPeriod = (bool)it->second->getPingPeriod();
    if(!canSleep && pingPeriod > 0) { ... it->second->ping(); ... }
>> *)
Definition ping_selected (a : Agent) : bool :=
  let canSleep := a_canSleep a in
  let pingPeriod := int_of_bool (bool_of_int (a_pingPeriod a)) in
  (negb canSleep && (0 <? pingPeriod))%bool.

(** [void AgentCollection::ping()]: the agents on which [Agent::ping()] is
    invoked, in the order of the map. *)
Definition ping (st : State) : Datatypes.list Ptr :=
  flat_map (fun e : entry => if ping_selected e.2.2 then [e.2.1] else []) (agents st).

(** [void AgentCollection::reset()]: the agents on which [Agent::reset()] is
    invoked, in the order of the map (the printed messages aside, the loop
    does nothing else; what [Agent::reset()] does is in Agent.cpp). *)
Definition reset (st : State) : Datatypes.list Ptr :=
  map (fun e : entry => e.2.1) (agents st).

(** The nested object [list()] builds for one agent. *)
Definition agent_json (a : Agent) : JsonObject :=
  let o := jset [] XIOTModuleJsonTag.name (JStr (a_name a)) in
  let o := jset o XIOTModuleJsonTag.ip (JStr (a_ip a)) in
  let o := jset o XIOTModuleJsonTag.canSleep (JBool (a_canSleep a)) in
  let o := jset o XIOTModuleJsonTag.pong (JBool (a_pong a)) in
  let o := jset o XIOTModuleJsonTag.uiClassName (cstr_value (a_uiClassName a)) in
  let o := jset o XIOTModuleJsonTag.heap (JInt (a_heap a)) in
  match a_custom a with
  | Some c => jset o XIOTModuleJsonTag.custom (JStr c)
  | None => o
  end.

(** The loop of [list()]: the root object and [customSize]. *)
Fixpoint list_loop (m : agentMap) (root : JsonObject) (customSize : Z) : JsonObject * Z :=
  match m with
  | [] => (root, customSize)
  | (_, (_, a)) :: m' =>
      let root' := jset root (a_mac a) (JObj (agent_json a)) in
      let customSize' :=
        match a_custom a with
        | Some c => Z.of_nat (String.length c)
        | None => customSize
        end in
      list_loop m' root' customSize'
  end.

(** [char* AgentCollection::list()]: the text in the returned buffer and
    the size of that buffer: ["{}"] in [malloc(3)] for an empty collection;
    otherwise [strBufferSize = _listBufferSize + customSize] bytes, into
    which [root.printTo(strBuffer, strBufferSize-1)] prints the object the
    loop built. *)
Definition list (st : State) : string * Z :=
  let size := getCount st in
  if size =? 0 then ("{}", 3)
  else
    let '(root, customSize) := list_loop (agents st) [] 0 in
    let strBufferSize := listBufferSize st + customSize in
    (printTo (JObj root) (strBufferSize - 1), strBufferSize).

End Collection.

End AgentCollection.

(** ** Well-formed collections

    The states [add], [refresh] and [renameOne] reach from the empty
    collection: the map is sorted by [strcmp] on its keys, each agent's mac
    is its key, and the pointers are distinct and below the next address. *)

Definition key_lt (e1 e2 : entry) : Prop := String.compare e1.1 e2.1 = Lt.

Record wf (st : AgentCollection.State) : Prop := {
  wf_sorted : StronglySorted key_lt (AgentCollection.agents st);
  wf_mac : Forall (fun e : entry => a_mac e.2.2 = e.1) (AgentCollection.agents st);
  wf_below : Forall (fun e : entry => (e.2.1 < AgentCollection.next_ptr st)%nat)
               (AgentCollection.agents st);
  wf_ptrs : List.NoDup (map (fun e : entry => e.2.1) (AgentCollection.agents st))
}.

(** The collections a program reaches from the constructor through calls of
    [add], [refresh] and [renameOne] (whatever the buffer [newName] of
    [renameOne] holds when it starts). *)
Section Reachable.

Variable parseObject : string -> option JsonObject.
Variables LIST_BUFFER_SIZE MAC_ADDR_MAX_LENGTH NAME_MAX_LENGTH
  DOUBLE_IP_MAX_LENGTH UI_CLASS_NAME_MAX_LENGTH : Z.

Inductive reachable : AgentCollection.State -> Prop :=
| reach_new (lbs0 : Z) (p0 : Ptr) : reachable (AgentCollection.create lbs0 p0)
| reach_add (st : AgentCollection.State) (js : string) :
    reachable st ->
    reachable (AgentCollection.add parseObject LIST_BUFFER_SIZE MAC_ADDR_MAX_LENGTH
                 NAME_MAX_LENGTH DOUBLE_IP_MAX_LENGTH UI_CLASS_NAME_MAX_LENGTH st js).1
| reach_refresh (st : AgentCollection.State) (js : string) :
    reachable st -> reachable (AgentCollection.refresh parseObject st js).1
| reach_rename (newName0 : string) (st : AgentCollection.State) (p : Ptr) :
    reachable st -> reachable (AgentCollection.renameOne NAME_MAX_LENGTH newName0 st p).

End Reachable.

(** ** Concrete payloads and collections *)

Definition payload (name mac ip : string) (extra : JsonObject) : JsonObject :=
  ([(XIOTModuleJsonTag.name, JStr name); (XIOTModuleJsonTag.MAC, JStr mac);
   (XIOTModuleJsonTag.ip, JStr ip)] ++ extra)%list.

(** A [custom] value of 300 characters. *)
Definition x300 : string := String.concat "" (List.repeat "x" 300).

(** A parser that knows a few request bodies. *)
Definition demo_parse (s : string) : option JsonObject :=
  if String.eqb s "lampA" then Some (payload "Lamp" "AA:AA" "10.0.0.1" [])
  else if String.eqb s "lampB" then Some (payload "Lamp" "BB:BB" "10.0.0.2" [])
  else if String.eqb s "lampC" then Some (payload "Lamp" "CC:CC" "10.0.0.3" [])
  else if String.eqb s "myLampA" then Some (payload "My_Lamp_3" "AA:AA" "10.0.0.1" [])
  else if String.eqb s "myLampB" then Some (payload "My_Lamp_3" "BB:BB" "10.0.0.2" [])
  else if String.eqb s "plugB" then Some (payload "Plug" "BB:BB" "10.0.0.2" [])
  else if String.eqb s "neg"
    then Some (payload "Plug" "AA:AA" "10.0.0.1" [(XIOTModuleJsonTag.pingPeriod, JInt (-5))])
  else if String.eqb s "bigCustom"
    then Some (payload "Lamp" "AA:AA" "10.0.0.1" [(XIOTModuleJsonTag.custom, JStr "xxxxxxxxxx")])
  else if String.eqb s "hugeCustom"
    then Some (payload "Lamp" "AA:AA" "10.0.0.1" [(XIOTModuleJsonTag.custom, JStr x300)])
  else if String.eqb s "longA" then Some (payload "ABCDEFGHIJKLMNOPQRS" "AA:AA" "10.0.0.1" [])
  else if String.eqb s "longB" then Some (payload "ABCDEFGHIJKLMNOPQRS" "BB:BB" "10.0.0.2" [])
  else if String.eqb s "smallCustom"
    then Some (payload "Plug" "BB:BB" "10.0.0.2" [(XIOTModuleJsonTag.custom, JStr "y")])
  else if String.eqb s "sleeper"
    then Some (payload "Sensor" "CC:CC" "10.0.0.3"
                 [(XIOTModuleJsonTag.canSleep, JBool true); (XIOTModuleJsonTag.pingPeriod, JInt 30)])
  else if String.eqb s "refreshA"
    then Some [(XIOTModuleJsonTag.MAC, JStr "AA:AA"); (XIOTModuleJsonTag.custom, JStr "on")]
  else None.

Definition empty_collection : AgentCollection.State := AgentCollection.mkState [] 1 0.

(** [add] and [renameOne] with the demo parser, [NAME_MAX_LENGTH = 20] and
    the other sizes of the XIOTModule library set to 10, 17, 31 and 20. *)
Definition demo_add (st : AgentCollection.State) (s : string) : AgentCollection.State * option Ptr :=
  AgentCollection.add demo_parse 10 17 20 31 20 st s.
Definition demo_rename (st : AgentCollection.State) (p : Ptr) : AgentCollection.State :=
  AgentCollection.renameOne 20 "" st p.

(** "Lamp" on AA:AA (pointer 1); then "Lamp" on BB:BB (pointer 2), flagged
    for renaming; then "Lamp" on CC:CC (pointer 3) once BB:BB is renamed. *)
Definition stA : AgentCollection.State := (demo_add empty_collection "lampA").1.
Definition stAB : AgentCollection.State := (demo_add stA "lampB").1.
Definition stABC : AgentCollection.State := (demo_add (demo_rename stAB 2) "lampC").1.

(** "Lamp" on AA:AA, then a "Sensor" that can sleep on CC:CC (pointer 2). *)
Definition stAS : AgentCollection.State := (demo_add stA "sleeper").1.

(** "Lamp" on AA:AA with custom "xxxxxxxxxx", then "Plug" on BB:BB with
    custom "y". *)
Definition stCustom : AgentCollection.State :=
  (demo_add (demo_add empty_collection "bigCustom").1 "smallCustom").1.

(** "Lamp" on AA:AA with a custom of 300 characters, then "Plug" on BB:BB
    with custom "y". *)
Definition stHuge : AgentCollection.State :=
  (demo_add (demo_add empty_collection "hugeCustom").1 "smallCustom").1.

(** Two agents named "ABCDEFGHIJKLMNOPQRS" (19 characters), on AA:AA
    (pointer 1) and on BB:BB (pointer 2, flagged for renaming). *)
Definition stLong : AgentCollection.State :=
  (demo_add (demo_add empty_collection "longA").1 "longB").1.

(** "Plug" on AA:AA with [pingPeriod = -5] (pointer 1), then the "Sensor"
    that can sleep on CC:CC (pointer 2). *)
Definition stPing : AgentCollection.State :=
  (demo_add (demo_add empty_collection "neg").1 "sleeper").1.

(** "My_Lamp_3" registered on AA:AA, then on BB:BB (pointer 2, flagged). *)
Definition stMy : AgentCollection.State :=
  (demo_add (demo_add empty_collection "myLampA").1 "myLampB").1.

(** * Properties *)

Local Open Scope list_scope.

(** ** Strings and the agent map *)

Module MapFacts.

Lemma compare_refl (s : string) : String.compare s s = Eq.
Proof.
  induction s as [|c s IH]; simpl; [reflexivity|].
  unfold Ascii.compare. rewrite N.compare_refl. exact IH.
Qed.

Lemma compare_Eq (s1 s2 : string) : String.compare s1 s2 = Eq <-> s1 = s2.
Proof.
  split; [apply String.compare_eq_iff|intros ->; apply compare_refl].
Qed.

Lemma compare_lt_trans (s1 s2 s3 : string) :
  String.compare s1 s2 = Lt -> String.compare s2 s3 = Lt -> String.compare s1 s3 = Lt.
Proof.
  revert s2 s3.
  induction s1 as [|c1 s1 IH]; intros [|c2 s2] [|c3 s3] H12 H23; simpl in *;
    try discriminate; try reflexivity.
  destruct (Ascii.compare c1 c2) eqn:E12; try discriminate;
  destruct (Ascii.compare c2 c3) eqn:E23; try discriminate.
  - apply Ascii.compare_eq_iff in E12, E23. subst.
    unfold Ascii.compare in *. rewrite N.compare_refl in *. exact (IH s2 s3 H12 H23).
  - apply Ascii.compare_eq_iff in E12. subst. rewrite E23. reflexivity.
  - apply Ascii.compare_eq_iff in E23. subst. rewrite E12. reflexivity.
  - unfold Ascii.compare in *.
    apply N.compare_lt_iff in E12, E23.
    assert (N.compare (N_of_ascii c1) (N_of_ascii c3) = Lt) as ->
      by (apply N.compare_lt_iff; eapply N.lt_trans; eassumption).
    reflexivity.
Qed.

Lemma compare_lt_neq (s1 s2 : string) : String.compare s1 s2 = Lt -> s1 <> s2.
Proof. intros H ->. rewrite compare_refl in H. discriminate. Qed.

Lemma eqb_true (s1 s2 : string) : String.eqb s1 s2 = true <-> s1 = s2.
Proof. apply String.eqb_eq. Qed.

Lemma eqb_false (s1 s2 : string) : String.eqb s1 s2 = false <-> s1 <> s2.
Proof. apply String.eqb_neq. Qed.

Ltac eqb_cases k k' :=
  destruct (String.eqb k k') eqn:?Heqb;
  [apply eqb_true in Heqb; subst | apply eqb_false in Heqb].

Lemma map_find_in (k : string) (v : Ptr * Agent) (m : agentMap) :
  map_find k m = Some v -> In (k, v) m.
Proof.
  induction m as [|[k' v'] m IH]; simpl; [discriminate|].
  eqb_cases k k'; [intros [= ->]; left; reflexivity|auto].
Qed.

Lemma map_find_not_in (k : string) (m : agentMap) :
  Forall (fun e : entry => String.compare k e.1 = Lt) m -> map_find k m = None.
Proof.
  induction 1 as [|[k' v'] m Hlt _ IH]; simpl; [reflexivity|].
  simpl in Hlt. apply compare_lt_neq in Hlt.
  destruct (String.eqb k k') eqn:E; [apply eqb_true in E; contradiction|exact IH].
Qed.

Lemma forall_lt_weaken (k k' : string) (m : agentMap) :
  String.compare k k' = Lt ->
  Forall (fun e : entry => String.compare k' e.1 = Lt) m ->
  Forall (fun e : entry => String.compare k e.1 = Lt) m.
Proof.
  intros Hkk'. apply List.Forall_impl. intros e He. eapply compare_lt_trans; eauto.
Qed.

(** Insertion of a key that is present returns the map unchanged and the
    pointer already registered. *)
Lemma map_insert_present (k : string) (v : Ptr * Agent) (m : agentMap) p a :
  StronglySorted key_lt m -> map_find k m = Some (p, a) ->
  map_insert k v m = (m, p, false).
Proof.
  induction 1 as [|[k' v'] m Hs IH Hall]; simpl; [discriminate|].
  intros Hf.
  destruct (String.compare k k') eqn:C.
  - apply compare_Eq in C. subst. rewrite String.eqb_refl in Hf.
    injection Hf as ->. reflexivity.
  - exfalso. pose proof (compare_lt_neq _ _ C) as Hne.
    apply eqb_false in Hne. rewrite Hne in Hf.
    rewrite map_find_not_in in Hf; [discriminate|].
    eapply forall_lt_weaken; [exact C|]. exact Hall.
  - assert (k <> k') as Hne.
    { intros ->. rewrite compare_refl in C. discriminate. }
    apply eqb_false in Hne. rewrite Hne in Hf.
    rewrite (IH Hf). reflexivity.
Qed.

(** Insertion of an absent key adds one entry, at its place in the order. *)
Lemma map_insert_absent (k : string) (v : Ptr * Agent) (m : agentMap) :
  map_find k m = None ->
  exists l1 l2 : agentMap, m = l1 ++ l2 /\ map_insert k v m = (l1 ++ (k, v) :: l2, v.1, true)
    /\ Forall (fun e : entry => String.compare e.1 k = Lt) l1
    /\ Forall (fun e : entry => String.compare k e.1 = Lt) (firstn 1 l2).
Proof.
  induction m as [|[k' v'] m IH]; simpl; intros Hf.
  - exists [], []. repeat split; constructor.
  - eqb_cases k k'; [discriminate|].
    destruct (String.compare k k') eqn:C.
    + apply compare_Eq in C. contradiction.
    + exists [], ((k', v') :: m). repeat split; try constructor; auto.
    + destruct (IH Hf) as (l1 & l2 & -> & Hins & H1 & H2).
      rewrite Hins. exists ((k', v') :: l1), l2.
      repeat split; auto. constructor; auto.
      simpl. rewrite String.compare_antisym, C. reflexivity.
Qed.

Lemma map_find_app_skip (k k0 : string) (v0 : Ptr * Agent) (l1 l2 : agentMap) :
  k <> k0 -> map_find k (l1 ++ (k0, v0) :: l2) = map_find k (l1 ++ l2).
Proof.
  intros Hne. induction l1 as [|[k' v'] l1 IH]; simpl.
  - apply eqb_false in Hne. rewrite Hne. reflexivity.
  - rewrite IH. reflexivity.
Qed.

Lemma map_find_app_here (k : string) (v : Ptr * Agent) (l1 l2 : agentMap) :
  Forall (fun e : entry => e.1 <> k) l1 -> map_find k (l1 ++ (k, v) :: l2) = Some v.
Proof.
  induction 1 as [|[k' v'] l1 Hne _ IH]; simpl.
  - rewrite String.eqb_refl. reflexivity.
  - simpl in Hne. assert (k <> k') as Hne' by auto.
    apply eqb_false in Hne'. rewrite Hne'. exact IH.
Qed.

Lemma map_update_keys (k : string) (f : Agent -> Agent) (m : agentMap) :
  map fst (map_update k f m) = map fst m.
Proof.
  induction m as [|[k' [p a]] m IH]; simpl; [reflexivity|].
  destruct (String.eqb k k'); simpl; [reflexivity|]. rewrite IH. reflexivity.
Qed.

Lemma map_update_ptrs (k : string) (f : Agent -> Agent) (m : agentMap) :
  map (fun e : entry => e.2.1) (map_update k f m) = map (fun e : entry => e.2.1) m.
Proof.
  induction m as [|[k' [p a]] m IH]; simpl; [reflexivity|].
  destruct (String.eqb k k'); simpl; [reflexivity|]. rewrite IH. reflexivity.
Qed.

Lemma map_update_length (k : string) (f : Agent -> Agent) (m : agentMap) :
  length (map_update k f m) = length m.
Proof.
  induction m as [|[k' [p a]] m IH]; simpl; [reflexivity|].
  destruct (String.eqb k k'); simpl; [reflexivity|]. rewrite IH. reflexivity.
Qed.

Lemma map_update_other (k k' : string) (f : Agent -> Agent) (m : agentMap) :
  k' <> k -> map_find k' (map_update k f m) = map_find k' m.
Proof.
  intros Hne. induction m as [|[k0 [p a]] m IH]; simpl; [reflexivity|].
  eqb_cases k k0; simpl.
  - apply eqb_false in Hne. rewrite Hne. reflexivity.
  - rewrite IH. reflexivity.
Qed.

Lemma map_update_absent (k : string) (f : Agent -> Agent) (m : agentMap) :
  map_find k m = None -> map_update k f m = m.
Proof.
  induction m as [|[k0 [p a]] m IH]; simpl; [reflexivity|].
  eqb_cases k k0; [discriminate|]. intros Hf. rewrite (IH Hf). reflexivity.
Qed.

(** The entry [map_find] designates is the one [map_update] rewrites. *)
Lemma map_update_split (k : string) (f : Agent -> Agent) (m : agentMap) p a :
  map_find k m = Some (p, a) ->
  exists l1 l2 : agentMap, m = l1 ++ (k, (p, a)) :: l2 /\
    map_update k f m = l1 ++ (k, (p, f a)) :: l2 /\
    Forall (fun e : entry => e.1 <> k) l1.
Proof.
  induction m as [|[k0 [p0 a0]] m IH]; simpl; [discriminate|].
  eqb_cases k k0.
  - intros [= <- <-]. exists [], m. repeat split; constructor.
  - intros Hf. destruct (IH Hf) as (l1 & l2 & -> & Hu & Hl1).
    exists ((k0, (p0, a0)) :: l1), l2. rewrite Hu.
    repeat split; auto.
Qed.

Lemma map_update_found (k : string) (f : Agent -> Agent) (m : agentMap) p a :
  map_find k m = Some (p, a) -> map_find k (map_update k f m) = Some (p, f a).
Proof.
  intros Hf. destruct (map_update_split k f m p a Hf) as (l1 & l2 & _ & -> & Hl1).
  apply map_find_app_here. exact Hl1.
Qed.

Lemma ptr_find_absent (p : Ptr) (m : agentMap) :
  ~ In p (map (fun e : entry => e.2.1) m) -> ptr_find p m = None.
Proof.
  induction m as [|[k [p' a]] m IH]; simpl; [reflexivity|].
  intros Hn. destruct (Nat.eqb p p') eqn:E.
  - apply Nat.eqb_eq in E. subst. exfalso. apply Hn. left. reflexivity.
  - apply IH. intros Hin. apply Hn. right. exact Hin.
Qed.

Lemma ptr_find_update (p : Ptr) (f : Agent -> Agent) (m : agentMap) :
  ptr_find p (ptr_update p f m) = option_map f (ptr_find p m).
Proof.
  induction m as [|[k [p' a]] m IH]; simpl; [reflexivity|].
  destruct (Nat.eqb p p') eqn:E; simpl; rewrite E; [reflexivity|exact IH].
Qed.

End MapFacts.

Lemma below_not_in (n : Ptr) (m : agentMap) :
  Forall (fun e : entry => (e.2.1 < n)%nat) m -> ~ In n (map (fun e : entry => e.2.1) m).
Proof.
  intros Hall Hin. apply in_map_iff in Hin as (e & He & Hin).
  rewrite List.Forall_forall in Hall. specialize (Hall e Hin). lia.
Qed.

Lemma forall_lt_neq (k : string) (l : agentMap) :
  Forall (fun e : entry => String.compare e.1 k = Lt) l -> Forall (fun e : entry => e.1 <> k) l.
Proof. apply List.Forall_impl. intros e. apply MapFacts.compare_lt_neq. Qed.

(** ** Registration and refresh *)

Section Registration.

Variable parseObject : string -> option JsonObject.
Variables LIST_BUFFER_SIZE MAC_ADDR_MAX_LENGTH NAME_MAX_LENGTH
  DOUBLE_IP_MAX_LENGTH UI_CLASS_NAME_MAX_LENGTH : Z.

Local Abbreviation add := (AgentCollection.add parseObject LIST_BUFFER_SIZE
  MAC_ADDR_MAX_LENGTH NAME_MAX_LENGTH DOUBLE_IP_MAX_LENGTH UI_CLASS_NAME_MAX_LENGTH).
Local Abbreviation refresh := (AgentCollection.refresh parseObject).
Local Abbreviation agents := AgentCollection.agents.
Local Abbreviation next_ptr := AgentCollection.next_ptr.
Local Abbreviation ptrs := (map (fun e : entry => e.2.1)).

(** The shape of a successful [add]: the map after [_agents.insert], then the
    setters on the agent at key [mac]. *)
Lemma add_success (st : AgentCollection.State) (js : string) (root : JsonObject)
    (name mac ip : string) :
  parseObject js = Some root ->
  as_cstr (jget root XIOTModuleJsonTag.name) = Some name ->
  as_cstr (jget root XIOTModuleJsonTag.MAC) = Some mac ->
  as_cstr (jget root XIOTModuleJsonTag.ip) = Some ip ->
  exists m1 p b, map_insert mac (next_ptr st, new_Agent name mac) (agents st) = (m1, p, b) /\
    (add st js).2 = Some p /\
    next_ptr (add st js).1 = S (next_ptr st) /\
    agents (add st js).1 =
      (let m2 := map_update mac (AgentCollection.add_update root name ip) m1 in
       if nameAlreadyExists m2 name mac then map_update mac (setToRename true) m2 else m2).
Proof.
  intros Hp Hn Hm Hi. unfold AgentCollection.add. rewrite Hp, Hn, Hm, Hi.
  destruct (map_insert mac _ (agents st)) as [[m1 p] b] eqn:Ins.
  exists m1, p, b. repeat split; reflexivity.
Qed.

Lemma final_map_facts (mac name : string) (f g : Agent -> Agent) (m1 : agentMap) :
  let m2 := map_update mac f m1 in
  let m3 := if nameAlreadyExists m2 name mac then map_update mac g m2 else m2 in
  map fst m3 = map fst m1 /\ ptrs m3 = ptrs m1 /\ length m3 = length m1 /\
  (forall k, k <> mac -> map_find k m3 = map_find k m1) /\
  (forall p a, map_find mac m1 = Some (p, a) -> exists a', map_find mac m3 = Some (p, a')).
Proof.
  intros m2 m3. subst m2 m3.
  destruct (nameAlreadyExists _ name mac);
    rewrite ?MapFacts.map_update_keys, ?MapFacts.map_update_ptrs, ?MapFacts.map_update_length;
    (repeat split; [intros k Hk; rewrite ?MapFacts.map_update_other by exact Hk; reflexivity|]);
    intros p a Hf; rewrite ?(MapFacts.map_update_found _ _ _ _ _ Hf);
    eauto using MapFacts.map_update_found.
Qed.

(** C1: for a valid registration payload, [add] creates one new agent, under
    a fresh pointer, when the mac is not registered (the count grows by one,
    no other key changes), and otherwise returns the pointer already
    registered for that mac, the new instance being deleted: the keys, hence
    the count, are unchanged and the fresh pointer is nowhere in the map. *)
Theorem add_one_agent_per_mac (st st' : AgentCollection.State) (r : option Ptr)
    (js : string) (root : JsonObject) (name mac ip : string) :
  wf st -> parseObject js = Some root ->
  as_cstr (jget root XIOTModuleJsonTag.name) = Some name ->
  as_cstr (jget root XIOTModuleJsonTag.MAC) = Some mac ->
  as_cstr (jget root XIOTModuleJsonTag.ip) = Some ip ->
  add st js = (st', r) ->
  (map_find mac (agents st) = None ->
     r = Some (next_ptr st) /\ ptr_find (next_ptr st) (agents st) = None /\
     length (agents st') = S (length (agents st)) /\
     (exists a, map_find mac (agents st') = Some (next_ptr st, a)) /\
     (forall k, k <> mac -> map_find k (agents st') = map_find k (agents st))) /\
  (forall p a, map_find mac (agents st) = Some (p, a) ->
     r = Some p /\ length (agents st') = length (agents st) /\
     map fst (agents st') = map fst (agents st) /\
     (exists a', map_find mac (agents st') = Some (p, a')) /\
     ptr_find (next_ptr st) (agents st') = None).
Proof.
  intros Hwf Hp Hn Hm Hi Hadd.
  destruct (add_success st js root name mac ip Hp Hn Hm Hi)
    as (m1 & p1 & b & Ins & Hr & _ & Hag).
  rewrite Hadd in Hr, Hag. simpl in Hr, Hag. subst r.
  destruct (final_map_facts mac name (AgentCollection.add_update root name ip)
              (setToRename true) m1) as (Hkeys & Hptrs & Hlen & Hother & Hfound).
  rewrite <- Hag in Hkeys, Hptrs, Hlen, Hother, Hfound.
  split.
  - intros Habs.
    destruct (MapFacts.map_insert_absent mac (next_ptr st, new_Agent name mac) _ Habs)
      as (l1 & l2 & Hst & Ins' & Hl1 & _).
    rewrite Ins in Ins'. injection Ins' as -> -> ->.
    repeat split.
    + apply MapFacts.ptr_find_absent, below_not_in, (wf_below _ Hwf).
    + rewrite Hlen, Hst, !length_app. simpl. lia.
    + apply (Hfound _ (new_Agent name mac)).
      apply MapFacts.map_find_app_here, forall_lt_neq, Hl1.
    + intros k Hk. rewrite (Hother k Hk), Hst.
      apply MapFacts.map_find_app_skip, Hk.
  - intros p a Hf.
    rewrite (MapFacts.map_insert_present mac _ _ p a (wf_sorted _ Hwf) Hf) in Ins.
    injection Ins as <- <- <-.
    repeat split; auto.
    + eapply Hfound, Hf.
    + apply MapFacts.ptr_find_absent. rewrite Hptrs.
      apply below_not_in, (wf_below _ Hwf).
Qed.

(** C2: a call of [add] whose payload does not parse or lacks a string
    [name], [MAC] or [ip], and a call of [refresh] whose payload does not
    parse, lacks a string [MAC] or names a mac that is not registered,
    return NULL and leave the collection as it was. *)
Theorem failed_calls_keep_state (st : AgentCollection.State) (js : string) :
  ((parseObject js = None \/
    exists root, parseObject js = Some root /\
      (as_cstr (jget root XIOTModuleJsonTag.name) = None \/
       as_cstr (jget root XIOTModuleJsonTag.MAC) = None \/
       as_cstr (jget root XIOTModuleJsonTag.ip) = None)) ->
   add st js = (st, None)) /\
  ((parseObject js = None \/
    exists root, parseObject js = Some root /\
      (as_cstr (jget root XIOTModuleJsonTag.MAC) = None \/
       exists mac, as_cstr (jget root XIOTModuleJsonTag.MAC) = Some mac /\
                   map_find mac (agents st) = None)) ->
   refresh st js = (st, None)).
Proof.
  split.
  - unfold AgentCollection.add.
    intros [Hp | (root & Hp & [Hn | [Hm | Hi]])]; rewrite Hp; [reflexivity|..].
    + rewrite Hn. reflexivity.
    + rewrite Hm. destruct (as_cstr (jget root XIOTModuleJsonTag.name)); reflexivity.
    + rewrite Hi. destruct (as_cstr (jget root XIOTModuleJsonTag.name));
        destruct (as_cstr (jget root XIOTModuleJsonTag.MAC)); reflexivity.
  - unfold AgentCollection.refresh.
    intros [Hp | (root & Hp & [Hm | (mac & Hm & Hf)])]; rewrite Hp; [reflexivity|..].
    + rewrite Hm. reflexivity.
    + rewrite Hm, Hf. reflexivity.
Qed.

(** C7: a successful [refresh] rewrites the [custom] field of the agent
    registered under the payload's mac, and nothing else: every other field
    of that agent, every other entry of the map and the rest of the state
    are unchanged, and the agent's pointer is returned. *)
Theorem refresh_only_custom (st : AgentCollection.State) (js : string)
    (root : JsonObject) (mac : string) (p : Ptr) (a : Agent) :
  parseObject js = Some root ->
  as_cstr (jget root XIOTModuleJsonTag.MAC) = Some mac ->
  map_find mac (agents st) = Some (p, a) ->
  exists l1 l2,
    agents st = l1 ++ (mac, (p, a)) :: l2 /\
    refresh st js =
      (AgentCollection.mkState
         (l1 ++ (mac, (p, mkAgent (a_name a) (a_mac a) (a_ip a) (a_canSleep a)
                               (as_cstr (jget root XIOTModuleJsonTag.custom))
                               (a_uiClassName a) (a_heap a) (a_pingPeriod a)
                               (a_pong a) (a_toRename a))) :: l2)
         (next_ptr st) (AgentCollection.listBufferSize st),
       Some p).
Proof.
  intros Hp Hm Hf.
  destruct (MapFacts.map_update_split mac
              (setCustom (as_cstr (jget root XIOTModuleJsonTag.custom))) _ p a Hf)
    as (l1 & l2 & Hst & Hu & _).
  exists l1, l2. split; [exact Hst|].
  unfold AgentCollection.refresh. rewrite Hp, Hm, Hf, Hu. reflexivity.
Qed.

Lemma nameAlreadyExists_swap (l1 l2 : agentMap) (k name mac : string) (p : Ptr) (a a' : Agent) :
  a_mac a = mac -> a_mac a' = mac ->
  nameAlreadyExists (l1 ++ (k, (p, a')) :: l2) name mac =
  nameAlreadyExists (l1 ++ (k, (p, a)) :: l2) name mac.
Proof.
  intros Ha Ha'. unfold nameAlreadyExists. rewrite !existsb_app. simpl.
  rewrite Ha, Ha', String.eqb_refl, !andb_false_r. reflexivity.
Qed.

(** C10: [add] never clears the pending-rename flag: when the mac is
    registered and no agent on another mac has the payload's name, the
    agent keeps the flag it had. *)
Theorem add_keeps_rename_flag (st st' : AgentCollection.State) (r : option Ptr)
    (js : string) (root : JsonObject) (name mac ip : string) (p : Ptr) (a : Agent) :
  wf st -> parseObject js = Some root ->
  as_cstr (jget root XIOTModuleJsonTag.name) = Some name ->
  as_cstr (jget root XIOTModuleJsonTag.MAC) = Some mac ->
  as_cstr (jget root XIOTModuleJsonTag.ip) = Some ip ->
  map_find mac (agents st) = Some (p, a) ->
  nameAlreadyExists (agents st) name mac = false ->
  add st js = (st', r) ->
  exists a', map_find mac (agents st') = Some (p, a') /\ a_toRename a' = a_toRename a.
Proof.
  intros Hwf Hp Hn Hm Hi Hf Hno Hadd.
  destruct (add_success st js root name mac ip Hp Hn Hm Hi)
    as (m1 & p1 & b & Ins & _ & _ & Hag).
  rewrite (MapFacts.map_insert_present mac _ _ p a (wf_sorted _ Hwf) Hf) in Ins.
  injection Ins as <- <- <-.
  rewrite Hadd in Hag. simpl in Hag.
  assert (Hmac : a_mac a = mac).
  { pose proof (wf_mac _ Hwf) as Hall. rewrite List.Forall_forall in Hall.
    exact (Hall _ (MapFacts.map_find_in _ _ _ Hf)). }
  destruct (MapFacts.map_update_split mac (AgentCollection.add_update root name ip) _ p a Hf)
    as (l1 & l2 & Hst & Hu & _).
  rewrite Hu in Hag.
  rewrite nameAlreadyExists_swap with (a := a) in Hag by (try exact Hmac; exact Hmac).
  rewrite <- Hst, Hno in Hag.
  exists (AgentCollection.add_update root name ip a). split.
  - rewrite Hag, <- Hu. apply MapFacts.map_update_found, Hf.
  - reflexivity.
Qed.

End Registration.

(** ** Names *)

(** C3: [nameAlreadyExists(candidateName, excludingMac)] holds exactly when
    some registered agent has that name and a mac other than the excluded
    one; an agent on the excluded mac never counts. *)
Theorem nameAlreadyExists_iff (st : AgentCollection.State) (name mac : string) :
  nameAlreadyExists (AgentCollection.agents st) name mac = true <->
  exists e, In e (AgentCollection.agents st) /\ a_name e.2.2 = name /\ a_mac e.2.2 <> mac.
Proof.
  unfold nameAlreadyExists. rewrite existsb_exists.
  split; intros (e & Hin & H); exists e; split; auto.
  - apply andb_true_iff in H as [Hn Hm].
    apply MapFacts.eqb_true in Hn. apply negb_true_iff, MapFacts.eqb_false in Hm. auto.
  - destruct H as [Hn Hm]. apply andb_true_iff. split.
    + apply MapFacts.eqb_true. exact Hn.
    + apply negb_true_iff, MapFacts.eqb_false. exact Hm.
Qed.

Lemma nameAlreadyExists_in_names (m : agentMap) (name mac : string) :
  nameAlreadyExists m name mac = true -> In name (map (fun e : entry => a_name e.2.2) m).
Proof.
  intros H. apply (nameAlreadyExists_iff (AgentCollection.mkState m 0 0)) in H.
  destruct H as (e & Hin & Hn & _). apply in_map_iff. exists e. auto.
Qed.

Lemma nodup_map_injective {A B : Type} (f : A -> B) (l : list A) :
  (forall x y, f x = f y -> x = y) -> List.NoDup l -> List.NoDup (map f l).
Proof.
  intros Hinj. induction 1 as [|x l Hx _ IH]; simpl; constructor; auto.
  intros Hin. apply in_map_iff in Hin as (y & Hy & Hin).
  apply Hinj in Hy. subst. contradiction.
Qed.

(** Distinct digits give distinct candidates. *)
Lemma candidate_inj (alpha : string) (d1 d2 : Z) :
  candidate alpha d1 = candidate alpha d2 -> d1 = d2.
Proof.
  unfold candidate. intros H.
  apply (inj (String.append alpha)) in H.
  apply (inj (String.append "_")) in H.
  apply (inj pretty) in H. exact H.
Qed.

Section Rename.

Variable NAME_MAX_LENGTH : Z.
Variable m : agentMap.
Variables mac alpha : string.

Local Abbreviation loop := (AgentCollection.rename_loop NAME_MAX_LENGTH).
Local Abbreviation taken j := (nameAlreadyExists m (candidate alpha j) mac = true).

(** Every name the loop returns is the first candidate after [digit] that
    [nameAlreadyExists] rejects. *)
Lemma rename_loop_found (fuel : nat) (d : Z) (nn n : string) :
  loop fuel m mac alpha d nn = Some (Some n) ->
  exists k, (1 <= k)%Z /\ n = candidate alpha (d + k) /\
    nameAlreadyExists m n mac = false /\
    (forall j, (1 <= j < k)%Z -> taken (d + j)).
Proof.
  revert d nn. induction fuel as [|fuel IH]; intros d nn; simpl; [discriminate|].
  destruct (_ <? _)%Z; [|discriminate].
  destruct (nameAlreadyExists m (candidate alpha (d + 1)) mac) eqn:E; simpl.
  - intros Hl. destruct (IH _ _ Hl) as (k & Hk & -> & Hfree & Htaken).
    exists (k + 1)%Z. repeat split; [lia| |exact Hfree|].
    + f_equal. lia.
    + intros j Hj. destruct (Z.eq_dec j 1%Z) as [->|Hne]; [exact E|].
      replace (d + j)%Z with (d + 1 + (j - 1))%Z by lia. apply Htaken. lia.
  - intros [= <-]. exists 1%Z. repeat split; [lia|exact E|].
    intros j Hj. lia.
Qed.

(** Running out of fuel means every candidate tried was taken. *)
Lemma rename_loop_out_of_fuel (fuel : nat) (d : Z) (nn : string) :
  loop fuel m mac alpha d nn = None ->
  forall j, (1 <= j <= Z.of_nat fuel)%Z -> taken (d + j).
Proof.
  revert d nn. induction fuel as [|fuel IH]; intros d nn; simpl.
  - intros _ j Hj. lia.
  - destruct (_ <? _)%Z; [|discriminate].
    destruct (nameAlreadyExists m (candidate alpha (d + 1)) mac) eqn:E; simpl;
      [|discriminate].
    intros Hl j Hj. destruct (Z.eq_dec j 1%Z) as [->|Hne]; [exact E|].
    replace (d + j)%Z with (d + 1 + (j - 1))%Z by lia. apply (IH _ _ Hl). lia.
Qed.

(** At most [length m] consecutive candidates are taken: each one is the
    name of an agent, and they are pairwise distinct. *)
Lemma taken_bound (d : Z) (r : nat) :
  (forall j, (1 <= j <= Z.of_nat r)%Z -> taken (d + j)) -> (r <= length m)%nat.
Proof.
  intros Htaken.
  set (cs := map (fun i : nat => candidate alpha (d + Z.of_nat i)) (seq 1 r)).
  assert (Hnd : List.NoDup cs).
  { apply nodup_map_injective; [|apply seq_NoDup].
    intros i1 i2 H. apply candidate_inj in H. lia. }
  assert (Hincl : incl cs (map (fun e : entry => a_name e.2.2) m)).
  { intros c Hc. apply in_map_iff in Hc as (i & <- & Hi).
    apply in_seq in Hi. apply (nameAlreadyExists_in_names _ _ mac), Htaken. lia. }
  pose proof (NoDup_incl_length Hnd Hincl) as Hlen.
  unfold cs in Hlen. rewrite !length_map, length_seq in Hlen. exact Hlen.
Qed.

(** The fuel [renameOne] gives the loop is never exhausted. *)
Lemma rename_loop_fuel (d : Z) (nn : string) :
  loop (S (length m)) m mac alpha d nn <> None.
Proof.
  intros Hl. pose proof (taken_bound d (S (length m)) (rename_loop_out_of_fuel _ _ _ Hl)).
  lia.
Qed.

(** The loop reaches the first free candidate when [newName] and every
    earlier candidate are shorter than [NAME_MAX_LENGTH]. *)
Lemma rename_loop_reach (fuel : nat) (d k : Z) (nn : string) :
  (1 <= k <= Z.of_nat fuel)%Z ->
  (Z.of_nat (String.length nn) < NAME_MAX_LENGTH)%Z ->
  (forall j, (1 <= j < k)%Z -> taken (d + j) /\
     (Z.of_nat (String.length (candidate alpha (d + j))) < NAME_MAX_LENGTH)%Z) ->
  nameAlreadyExists m (candidate alpha (d + k)) mac = false ->
  loop fuel m mac alpha d nn = Some (Some (candidate alpha (d + k))).
Proof.
  revert d k nn. induction fuel as [|fuel IH]; intros d k nn Hk Hlen Hbefore Hfree;
    simpl; [lia|].
  replace (Z.of_nat (String.length nn) <? NAME_MAX_LENGTH)%Z with true
    by (symmetry; apply Z.ltb_lt; exact Hlen).
  destruct (Z.eq_dec k 1%Z) as [->|Hne].
  - rewrite Hfree. reflexivity.
  - destruct (Hbefore 1%Z ltac:(lia)) as [Ht Hl1]. rewrite Ht. simpl.
    replace (d + k)%Z with (d + 1 + (k - 1))%Z by lia.
    apply IH; [lia|exact Hl1| |].
    + intros j Hj. replace (d + 1 + j)%Z with (d + (j + 1))%Z by lia.
      apply Hbefore. lia.
    + replace (d + 1 + (k - 1))%Z with (d + k)%Z by lia. exact Hfree.
Qed.

End Rename.

Section RenameOne.

Variable NAME_MAX_LENGTH : Z.
Local Abbreviation renameOne := (AgentCollection.renameOne NAME_MAX_LENGTH).
Local Abbreviation agents := AgentCollection.agents.

(** C4 (as the code does it): [renameOne] takes [alpha] and [digit] from
    [strtok] ([split_name]: the text before the first ["_"] and the number
    of the next ["_"]-delimited token, 0 without one) and renames the agent
    to [alpha_n] for the first [n = digit + k], [k >= 1], that
    [nameAlreadyExists] rejects, when that candidate and the earlier ones
    are shorter than [NAME_MAX_LENGTH], and so is the string the buffer
    [newName] holds before the first try. *)
Theorem renameOne_first_free (newName0 : string) (st : AgentCollection.State)
    (p : Ptr) (a : Agent) (alpha : string) (d k : Z) :
  ptr_find p (agents st) = Some a ->
  split_name (a_name a) = (alpha, d) ->
  (1 <= k)%Z ->
  (Z.of_nat (String.length newName0) < NAME_MAX_LENGTH)%Z ->
  (forall j, (1 <= j <= k)%Z ->
     (Z.of_nat (String.length (candidate alpha (d + j))) < NAME_MAX_LENGTH)%Z) ->
  (forall j, (1 <= j < k)%Z ->
     nameAlreadyExists (agents st) (candidate alpha (d + j)) (a_mac a) = true) ->
  nameAlreadyExists (agents st) (candidate alpha (d + k)) (a_mac a) = false ->
  agents (renameOne newName0 st p) = ptr_update p (renameTo (candidate alpha (d + k))) (agents st).
Proof.
  intros Hp Hsplit Hk Hlen Hfit Htaken Hfree.
  assert (Hk' : (k - 1 <= Z.of_nat (length (agents st)))%Z).
  { assert (Hr : (Z.to_nat (k - 1) <= length (agents st))%nat).
    { apply (taken_bound (agents st) (a_mac a) alpha d). intros j Hj.
      apply Htaken. lia. }
    lia. }
  unfold AgentCollection.renameOne. rewrite Hp, Hsplit.
  rewrite (rename_loop_reach NAME_MAX_LENGTH (agents st) (a_mac a) alpha
             (S (length (agents st))) d k newName0); try assumption; [reflexivity|lia|].
  intros j Hj. split; [apply Htaken; lia|apply Hfit; lia].
Qed.

(** C5 fails: when the first candidate is longer than [NAME_MAX_LENGTH]
    (so that it does not fit the bound) and no agent of another mac holds
    it, [renameOne] still gives it to the agent and clears its
    pending-rename flag. The length test of the loop looks at the buffer
    [newName] before the candidate is written into it. *)
Theorem renameOne_overlong_accepted (newName0 : string) (st : AgentCollection.State)
    (p : Ptr) (a : Agent) (alpha : string) (d : Z) :
  ptr_find p (agents st) = Some a ->
  split_name (a_name a) = (alpha, d) ->
  (Z.of_nat (String.length newName0) < NAME_MAX_LENGTH)%Z ->
  (NAME_MAX_LENGTH < Z.of_nat (String.length (candidate alpha (d + 1))))%Z ->
  nameAlreadyExists (agents st) (candidate alpha (d + 1)) (a_mac a) = false ->
  exists a', ptr_find p (agents (renameOne newName0 st p)) = Some a' /\
    a_name a' = candidate alpha (d + 1) /\
    (NAME_MAX_LENGTH < Z.of_nat (String.length (a_name a')))%Z /\
    a_toRename a' = false.
Proof.
  intros Hp Hsplit Hlen Hlong Hfree.
  exists (renameTo (candidate alpha (d + 1)) a).
  unfold AgentCollection.renameOne. rewrite Hp, Hsplit.
  rewrite (rename_loop_reach NAME_MAX_LENGTH (agents st) (a_mac a) alpha
             (S (length (agents st))) d 1 newName0); [|lia|exact Hlen|intros j Hj; lia|exact Hfree].
  simpl. rewrite MapFacts.ptr_find_update, Hp. simpl.
  split; [reflexivity|]. split; [reflexivity|]. split; [exact Hlong|reflexivity].
Qed.

End RenameOne.

(** ** Ping *)

(** What [ping()] does: [Agent::ping()] is invoked on the agents that cannot
    sleep and whose [pingPeriod] is non-zero, the [(bool)] cast turning
    every non-zero period, negative ones included, into 1. *)
Lemma ping_invokes_iff (st : AgentCollection.State) (p : Ptr) :
  In p (AgentCollection.ping st) <->
  exists e, In e (AgentCollection.agents st) /\ e.2.1 = p /\
    a_canSleep e.2.2 = false /\ a_pingPeriod e.2.2 <> 0%Z.
Proof.
  unfold AgentCollection.ping. rewrite in_flat_map.
  split.
  - intros (e & Hin & Hp). exists e. split; [exact Hin|].
    unfold AgentCollection.ping_selected, int_of_bool, bool_of_int in Hp.
    destruct (a_canSleep e.2.2), (a_pingPeriod e.2.2 =? 0)%Z eqn:E;
      simpl in Hp; try contradiction.
    destruct Hp as [Hp|[]]. apply Z.eqb_neq in E. auto.
  - intros (e & Hin & <- & Hc & Hz). exists e. split; [exact Hin|].
    unfold AgentCollection.ping_selected, int_of_bool, bool_of_int.
    rewrite Hc. apply Z.eqb_neq in Hz. rewrite Hz. simpl. left. reflexivity.
Qed.

Lemma nodup_map_same {A B : Type} (f : A -> B) (l : list A) (x y : A) :
  List.NoDup (map f l) -> In x l -> In y l -> f x = f y -> x = y.
Proof.
  induction l as [|z l IH]; simpl; [contradiction|].
  intros Hnd Hx Hy Hf. inversion Hnd as [|? ? Hz Hnd']; subst.
  destruct Hx as [<-|Hx], Hy as [<-|Hy]; auto.
  - exfalso. apply Hz. rewrite Hf. apply in_map, Hy.
  - exfalso. apply Hz. rewrite <- Hf. apply in_map, Hx.
Qed.

(** On a well-formed collection, agents that can sleep are never pinged. *)
Lemma ping_skips_sleepers (st : AgentCollection.State) (e : entry) :
  wf st -> In e (AgentCollection.agents st) -> a_canSleep e.2.2 = true ->
  ~ In e.2.1 (AgentCollection.ping st).
Proof.
  intros Hwf Hin Hc Hp. apply ping_invokes_iff in Hp as (e' & Hin' & Hpe & Hc' & _).
  assert (e' = e) as -> by (apply (nodup_map_same _ _ _ _ (wf_ptrs _ Hwf)); auto).
  rewrite Hc in Hc'. discriminate.
Qed.

(** C6 fails on a registration with a negative [pingPeriod]: the agent it
    creates cannot sleep and has [pingPeriod = -5], yet [ping()] invokes
    [Agent::ping()] on it. *)
Theorem ping_negative_period_pinged :
  let st := (demo_add empty_collection "neg").1 in
  (exists a, ptr_find 1 (AgentCollection.agents st) = Some a /\
     a_canSleep a = false /\ a_pingPeriod a = (-5)%Z) /\
  AgentCollection.ping st = [1%nat].
Proof.
  split; [|vm_compute; reflexivity].
  eexists. split; [vm_compute; reflexivity|]. split; reflexivity.
Qed.

(** ** Listing *)

Lemma jset_fresh (o : JsonObject) (k : string) (v : JsonValue) :
  ~ In k (map fst o) -> jset o k v = o ++ [(k, v)].
Proof.
  induction o as [|[k' v'] o IH]; simpl; [reflexivity|].
  intros Hn. destruct (String.eqb k k') eqn:E.
  - apply MapFacts.eqb_true in E. subst. exfalso. apply Hn. left. reflexivity.
  - rewrite IH; [reflexivity|]. intros H. apply Hn. right. exact H.
Qed.

(** The fields of an agent's entry in the listing. *)
Lemma agent_json_fields (a : Agent) :
  AgentCollection.agent_json a =
  [(XIOTModuleJsonTag.name, JStr (a_name a)); (XIOTModuleJsonTag.ip, JStr (a_ip a));
   (XIOTModuleJsonTag.canSleep, JBool (a_canSleep a));
   (XIOTModuleJsonTag.pong, JBool (a_pong a));
   (XIOTModuleJsonTag.uiClassName, cstr_value (a_uiClassName a));
   (XIOTModuleJsonTag.heap, JInt (a_heap a))] ++
  match a_custom a with Some c => [(XIOTModuleJsonTag.custom, JStr c)] | None => [] end.
Proof. unfold AgentCollection.agent_json. destruct (a_custom a); reflexivity. Qed.

Lemma sorted_keys_nodup (m : agentMap) :
  StronglySorted key_lt m -> List.NoDup (map fst m).
Proof.
  induction 1 as [|e m _ IH Hall]; simpl; constructor; auto.
  intros Hin. apply in_map_iff in Hin as (e' & He' & Hin).
  rewrite List.Forall_forall in Hall. specialize (Hall e' Hin).
  unfold key_lt in Hall. rewrite He', MapFacts.compare_refl in Hall. discriminate.
Qed.

Lemma list_loop_root (m : agentMap) (root : JsonObject) (cs : Z) :
  Forall (fun e : entry => a_mac e.2.2 = e.1) m ->
  List.NoDup (map fst root ++ map fst m) ->
  (AgentCollection.list_loop m root cs).1 =
  root ++ map (fun e : entry => (e.1, JObj (AgentCollection.agent_json e.2.2))) m.
Proof.
  revert root cs. induction m as [|[k [p a]] m IH]; intros root cs Hmac Hnd; simpl.
  - rewrite app_nil_r. reflexivity.
  - inversion Hmac as [|? ? Hk Hmac']; subst. simpl in Hk. rewrite Hk.
    rewrite jset_fresh.
    + rewrite IH; auto.
      * rewrite <- app_assoc. reflexivity.
      * rewrite map_app, <- app_assoc. exact Hnd.
    + intros Hin. simpl in Hnd. apply NoDup_remove_2 in Hnd.
      apply Hnd, in_or_app. left. exact Hin.
Qed.

(** The composite C8 describes: one member per agent, keyed by its mac,
    with the agent's [name], [ip], [canSleep], [pong], [uiClassName] and
    [heap], and [custom] exactly when the agent has one. *)
Definition listing (st : AgentCollection.State) : JsonValue :=
  JObj (map (fun e : entry =>
     (e.1, JObj
       ([(XIOTModuleJsonTag.name, JStr (a_name e.2.2));
         (XIOTModuleJsonTag.ip, JStr (a_ip e.2.2));
         (XIOTModuleJsonTag.canSleep, JBool (a_canSleep e.2.2));
         (XIOTModuleJsonTag.pong, JBool (a_pong e.2.2));
         (XIOTModuleJsonTag.uiClassName, cstr_value (a_uiClassName e.2.2));
         (XIOTModuleJsonTag.heap, JInt (a_heap e.2.2))] ++
        match a_custom e.2.2 with
        | Some c => [(XIOTModuleJsonTag.custom, JStr c)]
        | None => []
        end))) (AgentCollection.agents st)).

Lemma str_take_length (n : Z) (s : string) :
  (0 <= n <= Z.of_nat (String.length s))%Z ->
  Z.of_nat (String.length (str_take n s)) = n.
Proof.
  revert n. induction s as [|c s IH]; intros n Hn; simpl in *.
  - lia.
  - destruct (n <=? 0)%Z eqn:E.
    + apply Z.leb_le in E. simpl. lia.
    + apply Z.leb_gt in E. simpl. rewrite Nat2Z.inj_succ, IH by lia. lia.
Qed.

(** On a well-formed non-empty collection, [list()] returns the first
    [strBufferSize - 2] characters of the serialization of the composite
    C8 describes. *)
Lemma list_prints_listing (st : AgentCollection.State) :
  wf st -> AgentCollection.agents st <> [] ->
  (AgentCollection.list st).1 =
    printTo (listing st) ((AgentCollection.list st).2 - 1).
Proof.
  intros Hwf Hne.
  assert (Hlisting : listing st = JObj
    (map (fun e : entry => (e.1, JObj (AgentCollection.agent_json e.2.2)))
       (AgentCollection.agents st))).
  { unfold listing. f_equal. apply map_ext. intros e. rewrite agent_json_fields. reflexivity. }
  unfold AgentCollection.list, AgentCollection.getCount.
  destruct (AgentCollection.agents st) as [|e m] eqn:Hag; [contradiction|].
  assert (Hc : (Z.of_nat (length (e :: m)) =? 0)%Z = false)
    by (apply Z.eqb_neq; simpl; lia).
  rewrite Hc.
  destruct (AgentCollection.list_loop (e :: m) [] 0) as [root cs] eqn:Hl.
  simpl. rewrite Hlisting.
  pose proof (list_loop_root (e :: m) [] 0) as Hroot.
  rewrite Hl in Hroot. simpl in Hroot. rewrite Hroot; [reflexivity| |].
  - pose proof (wf_mac _ Hwf) as Hmac. rewrite Hag in Hmac. exact Hmac.
  - pose proof (sorted_keys_nodup _ (wf_sorted _ Hwf)) as Hnd.
    rewrite Hag in Hnd. exact Hnd.
Qed.

(** C8 fails: on a well-formed non-empty collection whose serialized
    listing is longer than [strBufferSize - 2] characters ([strBufferSize]
    being the size [list()] allocates, between 2 and [2^32]), the text
    [list()] returns is that serialization cut after [strBufferSize - 2]
    characters, so it is not the composite of the N agents. *)
Theorem list_output_truncated (st : AgentCollection.State) :
  wf st -> AgentCollection.agents st <> [] ->
  (2 <= (AgentCollection.list st).2 <= 2 ^ 32)%Z ->
  ((AgentCollection.list st).2 - 2 < Z.of_nat (String.length (serialize (listing st))))%Z ->
  (AgentCollection.list st).1 =
    str_take ((AgentCollection.list st).2 - 2) (serialize (listing st)) /\
  Z.of_nat (String.length ((AgentCollection.list st).1)) = ((AgentCollection.list st).2 - 2)%Z /\
  (AgentCollection.list st).1 <> serialize (listing st).
Proof.
  intros Hwf Hne Hsz Hlong.
  assert (Hout : (AgentCollection.list st).1 =
            str_take ((AgentCollection.list st).2 - 2) (serialize (listing st))).
  { rewrite (list_prints_listing st Hwf Hne). unfold printTo.
    rewrite Z.mod_small by lia. f_equal. lia. }
  assert (Hlen : Z.of_nat (String.length ((AgentCollection.list st).1)) =
                 ((AgentCollection.list st).2 - 2)%Z).
  { rewrite Hout. apply str_take_length. lia. }
  split; [exact Hout|]. split; [exact Hlen|].
  intros Heq. rewrite Heq in Hlen. lia.
Qed.

(** The buffer [list()] allocates on a non-empty collection: the cached
    estimate plus the length of the [custom] of the LAST agent, in map order,
    that has one. *)
Lemma list_loop_custom (m : agentMap) (root : JsonObject) (cs : Z) :
  (AgentCollection.list_loop m root cs).2 =
  fold_left (fun acc (e : entry) =>
    match a_custom e.2.2 with Some c => Z.of_nat (String.length c) | None => acc end) m cs.
Proof.
  revert root cs. induction m as [|[k [p a]] m IH]; intros root cs; simpl; [reflexivity|].
  apply IH.
Qed.

(** C9 fails: with two agents whose [custom] values have 10 and 1
    characters, the first one in map order having the longer one, the
    buffer is the cached estimate plus 1, not plus 10. *)
Theorem list_buffer_last_custom :
  let st := (demo_add (demo_add empty_collection "bigCustom").1 "smallCustom").1 in
  map (fun e : entry => a_custom e.2.2) (AgentCollection.agents st) =
    [Some "xxxxxxxxxx"; Some "y"] /\
  (AgentCollection.list st).2 = (AgentCollection.listBufferSize st + 1)%Z /\
  (AgentCollection.list st).2 <> (AgentCollection.listBufferSize st + 10)%Z.
Proof. vm_compute. split; [reflexivity|]. split; [reflexivity|]. discriminate. Qed.

(** ** The well-formedness invariant

    [wf] holds of the empty collection and is kept by [add], [refresh] and
    [renameOne]: the hypothesis [wf st] of the theorems above holds of every
    collection the program builds. *)

Module Invariant.

Local Abbreviation agents := AgentCollection.agents.
Local Abbreviation next_ptr := AgentCollection.next_ptr.
Local Abbreviation ptrs := (map (fun e : entry => e.2.1)).

Lemma wf_empty : wf empty_collection.
Proof. split; simpl; constructor. Qed.

Lemma sorted_same_keys (m m' : agentMap) :
  map fst m' = map fst m -> StronglySorted key_lt m -> StronglySorted key_lt m'.
Proof.
  revert m'. induction m as [|e m IH]; intros [|e' m'] Hk Hs; simpl in Hk;
    try discriminate; [constructor|].
  injection Hk as He Hk. inversion Hs as [|? ? Hs' Hall]; subst.
  constructor; [apply IH; assumption|].
  rewrite List.Forall_forall in Hall |- *. intros x Hx.
  assert (Hx' : In x.1 (map fst m)) by (rewrite <- Hk; apply in_map, Hx).
  apply in_map_iff in Hx' as (y & Hy & Hin).
  unfold key_lt. rewrite He, <- Hy. apply Hall, Hin.
Qed.

Lemma forall_below (n n' : Ptr) (m m' : agentMap) :
  ptrs m' = ptrs m -> (n <= n')%nat ->
  Forall (fun e : entry => (e.2.1 < n)%nat) m -> Forall (fun e : entry => (e.2.1 < n')%nat) m'.
Proof.
  intros Hp Hn Hall. rewrite List.Forall_forall in Hall |- *. intros x Hx.
  assert (Hx' : In x.2.1 (ptrs m)) by (rewrite <- Hp; apply (in_map (fun e : entry => e.2.1)), Hx).
  apply in_map_iff in Hx' as (y & Hy & Hin). rewrite <- Hy. specialize (Hall y Hin). lia.
Qed.

(** A step that keeps the keys and the pointers, keeps each agent's mac and
    does not lower the next address keeps [wf]. *)
Lemma wf_same_shape (st st' : AgentCollection.State) :
  map fst (agents st') = map fst (agents st) ->
  ptrs (agents st') = ptrs (agents st) ->
  (next_ptr st <= next_ptr st')%nat ->
  Forall (fun e : entry => a_mac e.2.2 = e.1) (agents st') ->
  wf st -> wf st'.
Proof.
  intros Hk Hp Hn Hmac Hwf. split.
  - eapply sorted_same_keys; [exact Hk|apply (wf_sorted _ Hwf)].
  - exact Hmac.
  - eapply forall_below; [exact Hp|exact Hn|apply (wf_below _ Hwf)].
  - rewrite Hp. apply (wf_ptrs _ Hwf).
Qed.

Lemma map_update_macs (k : string) (f : Agent -> Agent) (m : agentMap) :
  (forall a, a_mac (f a) = a_mac a) ->
  Forall (fun e : entry => a_mac e.2.2 = e.1) m ->
  Forall (fun e : entry => a_mac e.2.2 = e.1) (map_update k f m).
Proof.
  intros Hf. induction 1 as [|[k' [p a]] m He Hm IH]; simpl; [constructor|].
  destruct (String.eqb k k'); constructor; simpl in *; try rewrite Hf; auto.
Qed.

Lemma ptr_update_shape (p : Ptr) (f : Agent -> Agent) (m : agentMap) :
  map fst (ptr_update p f m) = map fst m /\ ptrs (ptr_update p f m) = ptrs m.
Proof.
  induction m as [|[k [p' a]] m IH]; simpl; [split; reflexivity|].
  destruct (Nat.eqb p p'); simpl; [split; reflexivity|].
  destruct IH as [-> ->]. split; reflexivity.
Qed.

Lemma ptr_update_macs (p : Ptr) (f : Agent -> Agent) (m : agentMap) :
  (forall a, a_mac (f a) = a_mac a) ->
  Forall (fun e : entry => a_mac e.2.2 = e.1) m ->
  Forall (fun e : entry => a_mac e.2.2 = e.1) (ptr_update p f m).
Proof.
  intros Hf. induction 1 as [|[k [p' a]] m He Hm IH]; simpl; [constructor|].
  destruct (Nat.eqb p p'); constructor; simpl in *; try rewrite Hf; auto.
Qed.

Lemma refresh_keeps_wf (parseObject : string -> option JsonObject) (st : AgentCollection.State) (js : string) :
  wf st -> wf (AgentCollection.refresh parseObject st js).1.
Proof.
  intros Hwf. unfold AgentCollection.refresh.
  destruct (parseObject js) as [root|]; [|exact Hwf]. simpl.
  destruct (as_cstr (jget root XIOTModuleJsonTag.MAC)) as [mac|]; [|exact Hwf].
  destruct (map_find mac (agents st)) as [[p a]|]; [|exact Hwf]. simpl.
  apply (wf_same_shape st); simpl.
  - apply MapFacts.map_update_keys.
  - apply MapFacts.map_update_ptrs.
  - lia.
  - apply map_update_macs; [reflexivity|apply (wf_mac _ Hwf)].
  - exact Hwf.
Qed.

Lemma renameOne_keeps_wf (NAME_MAX_LENGTH : Z) (newName0 : string) (st : AgentCollection.State) (p : Ptr) :
  wf st -> wf (AgentCollection.renameOne NAME_MAX_LENGTH newName0 st p).
Proof.
  intros Hwf. unfold AgentCollection.renameOne.
  destruct (ptr_find p (agents st)) as [a|]; [|exact Hwf].
  destruct (split_name (a_name a)) as [alpha d].
  destruct (AgentCollection.rename_loop _ _ _ _ _ _ _) as [[nn|]|]; try exact Hwf.
  destruct (ptr_update_shape p (renameTo nn) (agents st)) as [Hk Hp].
  apply (wf_same_shape st); simpl; auto.
  apply ptr_update_macs; [reflexivity|apply (wf_mac _ Hwf)].
Qed.

(** [refresh] keeps a collection well-formed. *)
Lemma wf_refresh (parseObject : string -> option JsonObject) (st : AgentCollection.State) (js : string) :
  wf st -> wf (AgentCollection.refresh parseObject st js).1.
Proof. apply refresh_keeps_wf. Qed.

(** [renameOne] keeps a collection well-formed. *)
Lemma wf_renameOne (NAME_MAX_LENGTH : Z) (newName0 : string) (st : AgentCollection.State) (p : Ptr) :
  wf st -> wf (AgentCollection.renameOne NAME_MAX_LENGTH newName0 st p).
Proof. apply renameOne_keeps_wf. Qed.

Lemma map_insert_in (k : string) (v : Ptr * Agent) (m : agentMap) (e : entry) :
  In e (map_insert k v m).1.1 -> e = (k, v) \/ In e m.
Proof.
  induction m as [|[k' v'] m IH]; simpl.
  - intros [<-|[]]. left. reflexivity.
  - destruct (String.compare k k'); simpl.
    + intros [<-|Hin]; auto.
    + intros [<-|[<-|Hin]]; auto.
    + destruct (map_insert k v m) as [[r p] b] eqn:Ins. simpl in IH |- *.
      intros [<-|Hin]; auto. destruct (IH Hin); auto.
Qed.

Lemma map_insert_sorted (k : string) (v : Ptr * Agent) (m : agentMap) :
  StronglySorted key_lt m -> StronglySorted key_lt (map_insert k v m).1.1.
Proof.
  induction 1 as [|[k' v'] m Hs IH Hall]; simpl.
  - repeat constructor.
  - destruct (String.compare k k') eqn:C; simpl.
    + constructor; assumption.
    + constructor; [constructor; assumption|]. constructor; [exact C|].
      eapply List.Forall_impl; [|exact Hall].
      intros e He. eapply MapFacts.compare_lt_trans; [exact C|exact He].
    + destruct (map_insert k v m) as [[r p] b] eqn:Ins. simpl in IH |- *.
      constructor; [exact IH|].
      rewrite List.Forall_forall in Hall |- *. intros e He.
      assert (Hin : In e (map_insert k v m).1.1) by (rewrite Ins; exact He).
      destruct (map_insert_in k v m e Hin) as [->|Hin'].
      * unfold key_lt. simpl. rewrite String.compare_antisym, C. reflexivity.
      * apply Hall, Hin'.
Qed.

Lemma wf_add (parseObject : string -> option JsonObject) (L M N D U : Z)
    (st : AgentCollection.State) (js : string) :
  wf st -> wf (AgentCollection.add parseObject L M N D U st js).1.
Proof.
  intros Hwf.
  destruct (parseObject js) as [root|] eqn:Hp;
    [|unfold AgentCollection.add; rewrite Hp; exact Hwf].
  destruct (as_cstr (jget root XIOTModuleJsonTag.name)) as [name|] eqn:Hn;
    [|unfold AgentCollection.add; rewrite Hp, Hn; exact Hwf].
  destruct (as_cstr (jget root XIOTModuleJsonTag.MAC)) as [mac|] eqn:Hm;
    [|unfold AgentCollection.add; rewrite Hp, Hn, Hm; exact Hwf].
  destruct (as_cstr (jget root XIOTModuleJsonTag.ip)) as [ip|] eqn:Hi;
    [|unfold AgentCollection.add; rewrite Hp, Hn, Hm, Hi; exact Hwf].
  destruct (add_success parseObject L M N D U st js root name mac ip Hp Hn Hm Hi)
    as (m1 & p1 & b & Ins & _ & Hnext & Hag).
  destruct (final_map_facts mac name (AgentCollection.add_update root name ip)
              (setToRename true) m1) as (Hkeys & Hptrs & _ & _ & _).
  cbv zeta in Hag. rewrite <- Hag in Hkeys, Hptrs.
  assert (Hmacs : Forall (fun e : entry => a_mac e.2.2 = e.1) m1 ->
                  Forall (fun e : entry => a_mac e.2.2 = e.1)
                    (agents (AgentCollection.add parseObject L M N D U st js).1)).
  { intros H1. rewrite Hag. simpl.
    destruct (nameAlreadyExists _ name mac);
      repeat (apply map_update_macs; [reflexivity|]); exact H1. }
  (* the map after [_agents.insert] is well formed with the next address bumped *)
  assert (Hwf1 : wf (AgentCollection.mkState m1 (S (next_ptr st)) 0)).
  { pose proof (map_insert_sorted mac (next_ptr st, new_Agent name mac) _ (wf_sorted _ Hwf)) as Hs.
    rewrite Ins in Hs.
    assert (Hin : forall e, In e m1 -> e = (mac, (next_ptr st, new_Agent name mac)) \/ In e (agents st)).
    { intros e He. apply map_insert_in. rewrite Ins. exact He. }
    split; simpl; [exact Hs| | |].
    - rewrite List.Forall_forall. intros e He.
      destruct (Hin e He) as [->|He']; [reflexivity|].
      pose proof (wf_mac _ Hwf) as Hmac. rewrite List.Forall_forall in Hmac. apply Hmac, He'.
    - rewrite List.Forall_forall. intros e He.
      destruct (Hin e He) as [->|He']; simpl; [lia|].
      pose proof (wf_below _ Hwf) as Hb. rewrite List.Forall_forall in Hb.
      specialize (Hb e He'). lia.
    - destruct (map_find mac (agents st)) as [[p a]|] eqn:Hf.
      + rewrite (MapFacts.map_insert_present _ _ _ p a (wf_sorted _ Hwf) Hf) in Ins.
        injection Ins as <- _ _. apply (wf_ptrs _ Hwf).
      + destruct (MapFacts.map_insert_absent mac (next_ptr st, new_Agent name mac) _ Hf)
          as (l1 & l2 & Hst & Ins' & _ & _).
        rewrite Ins in Ins'. injection Ins' as -> _ _.
        pose proof (wf_ptrs _ Hwf) as Hnd. pose proof (wf_below _ Hwf) as Hb.
        rewrite Hst in Hnd, Hb. rewrite map_app in Hnd |- *. simpl.
        apply (Permutation.Permutation_NoDup (Permutation.Permutation_middle _ _ _)).
        constructor; [|exact Hnd].
        rewrite <- map_app. apply below_not_in, Hb. }
  apply (wf_same_shape (AgentCollection.mkState m1 (S (next_ptr st)) 0)); simpl.
  - exact Hkeys.
  - exact Hptrs.
  - rewrite Hnext. lia.
  - apply Hmacs, (wf_mac _ Hwf1).
  - exact Hwf1.
Qed.

End Invariant.

(** ** Further properties of the collection *)

Module More.

Local Abbreviation agents := AgentCollection.agents.
Local Abbreviation next_ptr := AgentCollection.next_ptr.
Local Abbreviation listBufferSize := AgentCollection.listBufferSize.
Local Abbreviation ptrs := (map (fun e : entry => e.2.1)).

(** Setters that keep the name and the mac do not change what
    [nameAlreadyExists] answers. *)
Lemma nameAlreadyExists_map_update (k : string) (f : Agent -> Agent) (m : agentMap)
    (n mc : string) :
  (forall a, a_name (f a) = a_name a /\ a_mac (f a) = a_mac a) ->
  nameAlreadyExists (map_update k f m) n mc = nameAlreadyExists m n mc.
Proof.
  intros Hf. unfold nameAlreadyExists.
  induction m as [|[k' [p a]] m IH]; simpl; [reflexivity|].
  destruct (String.eqb k k'); simpl.
  - destruct (Hf a) as [-> ->]. reflexivity.
  - rewrite IH. reflexivity.
Qed.

Lemma map_update_fixed (k : string) (f : Agent -> Agent) (m : agentMap) p a :
  map_find k m = Some (p, a) -> f a = a -> map_update k f m = m.
Proof.
  intros Hf Ha. induction m as [|[k' [p' a']] m IH]; simpl in *; [discriminate|].
  destruct (String.eqb k k').
  - injection Hf as -> ->. rewrite Ha. reflexivity.
  - rewrite (IH Hf). reflexivity.
Qed.

Lemma map_find_mac (k : string) (m : agentMap) p a :
  Forall (fun e : entry => a_mac e.2.2 = e.1) m -> map_find k m = Some (p, a) -> a_mac a = k.
Proof.
  intros Hall Hf. apply MapFacts.map_find_in in Hf.
  rewrite List.Forall_forall in Hall. exact (Hall _ Hf).
Qed.

Lemma ptr_find_in (p : Ptr) (m : agentMap) (a : Agent) :
  ptr_find p m = Some a -> exists k, In (k, (p, a)) m.
Proof.
  induction m as [|[k [p' b]] m IH]; simpl; [discriminate|].
  destruct (Nat.eqb p p') eqn:E.
  - apply Nat.eqb_eq in E as ->. intros Hs. injection Hs as ->. exists k. left. reflexivity.
  - intros Hf. destruct (IH Hf) as [k' Hk]. exists k'. right. exact Hk.
Qed.

Lemma in_ptr_find (m : agentMap) (e : entry) :
  List.NoDup (ptrs m) -> In e m -> ptr_find e.2.1 m = Some e.2.2.
Proof.
  induction m as [|[k [p' b]] m IH]; simpl; [contradiction|].
  intros Hnd Hin. inversion Hnd as [|? ? Hnot Hnd']; subst.
  destruct Hin as [<-|Hin]; simpl.
  - rewrite Nat.eqb_refl. reflexivity.
  - destruct (Nat.eqb e.2.1 p') eqn:E.
    + exfalso. apply Nat.eqb_eq in E. apply Hnot. rewrite <- E.
      apply (in_map (fun e : entry => e.2.1)), Hin.
    + apply IH; assumption.
Qed.

Lemma ptr_find_ptrs (p : Ptr) (m : agentMap) :
  (exists a, ptr_find p m = Some a) <-> In p (ptrs m).
Proof.
  induction m as [|[k [p' b]] m IH]; simpl.
  - split; [intros (a & H); discriminate|contradiction].
  - destruct (Nat.eqb p p') eqn:E.
    + apply Nat.eqb_eq in E as ->. split; [left; reflexivity|eauto].
    + apply Nat.eqb_neq in E. rewrite IH. split; [auto|].
      intros [H|H]; [congruence|exact H].
Qed.

Lemma ping_sub (m : agentMap) (p : Ptr) :
  In p (flat_map (fun e : entry => if AgentCollection.ping_selected e.2.2 then [e.2.1] else []) m) ->
  In p (ptrs m).
Proof.
  induction m as [|e m IH]; simpl; [contradiction|].
  rewrite in_app_iff. intros [H|H]; [|right; apply IH, H].
  destruct (AgentCollection.ping_selected e.2.2); simpl in H; [|contradiction].
  destruct H as [H|[]]. left. exact H.
Qed.

Lemma ping_nodup (m : agentMap) :
  List.NoDup (ptrs m) ->
  List.NoDup (flat_map (fun e : entry => if AgentCollection.ping_selected e.2.2 then [e.2.1] else []) m).
Proof.
  induction m as [|e m IH]; simpl; [constructor|].
  intros Hnd. inversion Hnd as [|? ? Hnot Hnd']; subst.
  destruct (AgentCollection.ping_selected e.2.2); simpl; [|apply IH, Hnd'].
  constructor; [|apply IH, Hnd'].
  intros H. apply Hnot, (ping_sub _ _ H).
Qed.

(** The value of [customSize] after the loop of [list()]: the length of the
    last [custom] met, or its initial value when no agent has one. *)
Lemma fold_last_custom (m : agentMap) (cs : Z) :
  fold_left (fun acc (e : entry) =>
    match a_custom e.2.2 with Some c => Z.of_nat (String.length c) | None => acc end) m cs =
  match rev (flat_map (fun e : entry => match a_custom e.2.2 with Some c => [c] | None => [] end) m) with
  | c :: _ => Z.of_nat (String.length c)
  | [] => cs
  end.
Proof.
  revert cs. induction m as [|e m IH]; intros cs; simpl; [reflexivity|].
  rewrite IH, rev_app_distr.
  destruct (rev (flat_map _ m)) as [|c l]; simpl; [|reflexivity].
  destruct (a_custom e.2.2); reflexivity.
Qed.

(** The agent [ptr_update] renames keeps its mac: on the new map,
    [nameAlreadyExists] still finds no other agent named [n]. *)
Lemma nameAlreadyExists_ptr_update (p : Ptr) (m : agentMap) (a : Agent) (n : string) :
  ptr_find p m = Some a -> nameAlreadyExists m n (a_mac a) = false ->
  nameAlreadyExists (ptr_update p (renameTo n) m) n (a_mac a) = false.
Proof.
  unfold nameAlreadyExists.
  induction m as [|[k [p' b]] m IH]; simpl; intros Hf Hn; [reflexivity|].
  apply orb_false_iff in Hn as [H1 H2].
  destruct (Nat.eqb p p'); simpl.
  - injection Hf as ->. rewrite !String.eqb_refl. simpl. exact H2.
  - rewrite H1. simpl. apply IH; assumption.
Qed.

(** The setters [add] applies, collapsed into one record: the name, the ip
    and the five payload attributes are replaced, the mac, [pong] and
    [toRename] are kept. *)
Lemma add_update_eq (root : JsonObject) (name ip : string) (a : Agent) :
  AgentCollection.add_update root name ip a =
  mkAgent name (a_mac a) ip (as_bool (jget root XIOTModuleJsonTag.canSleep))
    (as_cstr (jget root XIOTModuleJsonTag.custom))
    (as_cstr (jget root XIOTModuleJsonTag.uiClassName))
    (as_int (jget root XIOTModuleJsonTag.heap))
    (as_int (jget root XIOTModuleJsonTag.pingPeriod)) (a_pong a) (a_toRename a).
Proof. destruct a; reflexivity. Qed.

Section Collection.

Variable parseObject : string -> option JsonObject.
Variables LIST_BUFFER_SIZE MAC_ADDR_MAX_LENGTH NAME_MAX_LENGTH
  DOUBLE_IP_MAX_LENGTH UI_CLASS_NAME_MAX_LENGTH : Z.

Local Abbreviation add := (AgentCollection.add parseObject LIST_BUFFER_SIZE
  MAC_ADDR_MAX_LENGTH NAME_MAX_LENGTH DOUBLE_IP_MAX_LENGTH UI_CLASS_NAME_MAX_LENGTH).
Local Abbreviation refresh := (AgentCollection.refresh parseObject).
Local Abbreviation renameOne := (AgentCollection.renameOne NAME_MAX_LENGTH).
Local Abbreviation reachable := (reachable parseObject LIST_BUFFER_SIZE
  MAC_ADDR_MAX_LENGTH NAME_MAX_LENGTH DOUBLE_IP_MAX_LENGTH UI_CLASS_NAME_MAX_LENGTH).

Lemma add_some_inv (st st' : AgentCollection.State) (js : string) (p : Ptr) :
  add st js = (st', Some p) ->
  exists root name mac ip, parseObject js = Some root /\
    as_cstr (jget root XIOTModuleJsonTag.name) = Some name /\
    as_cstr (jget root XIOTModuleJsonTag.MAC) = Some mac /\
    as_cstr (jget root XIOTModuleJsonTag.ip) = Some ip.
Proof.
  unfold AgentCollection.add. intros H.
  destruct (parseObject js) as [root|] eqn:Hp; [|cbn in H; congruence].
  destruct (as_cstr (jget root XIOTModuleJsonTag.name)) as [name|] eqn:Hn; [|cbn in H; congruence].
  destruct (as_cstr (jget root XIOTModuleJsonTag.MAC)) as [mac|] eqn:Hm; [|cbn in H; congruence].
  destruct (as_cstr (jget root XIOTModuleJsonTag.ip)) as [ip|] eqn:Hi; [|cbn in H; congruence].
  exists root, name, mac, ip. auto.
Qed.

Lemma add_none (st st' : AgentCollection.State) (js : string) :
  add st js = (st', None) -> st' = st.
Proof.
  unfold AgentCollection.add. intros H.
  destruct (parseObject js) as [root|]; [|cbn in H; congruence].
  destruct (as_cstr (jget root XIOTModuleJsonTag.name)) as [name|]; [|cbn in H; congruence].
  destruct (as_cstr (jget root XIOTModuleJsonTag.MAC)) as [mac|]; [|cbn in H; congruence].
  destruct (as_cstr (jget root XIOTModuleJsonTag.ip)) as [ip|]; [|cbn in H; congruence].
  destruct (map_insert _ _ _) as [[m1 p1] b]. congruence.
Qed.

(** The estimate [_refreshListBufferSize] caches after a successful [add]. *)
Lemma add_buffer_size (st st' : AgentCollection.State) (js : string) (p : Ptr) :
  add st js = (st', Some p) ->
  listBufferSize st' = (LIST_BUFFER_SIZE + AgentCollection.getCount st' *
    (MAC_ADDR_MAX_LENGTH + NAME_MAX_LENGTH + DOUBLE_IP_MAX_LENGTH + UI_CLASS_NAME_MAX_LENGTH + 78))%Z.
Proof.
  intros H.
  destruct (add_some_inv _ _ _ _ H) as (root & name & mac & ip & Hp & Hn & Hm & Hi).
  unfold AgentCollection.add in H. rewrite Hp, Hn, Hm, Hi in H.
  destruct (map_insert _ _ _) as [[m1 p1] b].
  injection H as <- _.
  unfold AgentCollection._refreshListBufferSize, AgentCollection._jsonAttributeSize,
    AgentCollection.getCount. simpl. ring.
Qed.

(** The agent a successful [add] leaves at key [mac]: the one registered
    before or a new one, updated by the setters and, on a name clash, flagged. *)
Lemma add_target (st st' : AgentCollection.State) (r : option Ptr) (js : string)
    (root : JsonObject) (name mac ip : string) :
  wf st -> parseObject js = Some root ->
  as_cstr (jget root XIOTModuleJsonTag.name) = Some name ->
  as_cstr (jget root XIOTModuleJsonTag.MAC) = Some mac ->
  as_cstr (jget root XIOTModuleJsonTag.ip) = Some ip ->
  add st js = (st', r) ->
  exists p a0, r = Some p /\
    (map_find mac (agents st) = Some (p, a0) \/
     (map_find mac (agents st) = None /\ p = next_ptr st /\ a0 = new_Agent name mac)) /\
    map_find mac (agents st') =
      Some (p, if nameAlreadyExists (agents st') name mac
               then setToRename true (AgentCollection.add_update root name ip a0)
               else AgentCollection.add_update root name ip a0).
Proof.
  intros Hwf Hp Hn Hm Hi Hadd.
  destruct (add_success parseObject LIST_BUFFER_SIZE MAC_ADDR_MAX_LENGTH NAME_MAX_LENGTH
              DOUBLE_IP_MAX_LENGTH UI_CLASS_NAME_MAX_LENGTH st js root name mac ip Hp Hn Hm Hi)
    as (m1 & p1 & b & Ins & Hr & _ & Hag).
  rewrite Hadd in Hr, Hag. simpl in Hr, Hag. subst r. cbv zeta in Hag.
  assert (H1 : exists a0, map_find mac m1 = Some (p1, a0) /\
     (map_find mac (agents st) = Some (p1, a0) \/
      (map_find mac (agents st) = None /\ p1 = next_ptr st /\ a0 = new_Agent name mac))).
  { destruct (map_find mac (agents st)) as [[p a]|] eqn:Hf.
    - rewrite (MapFacts.map_insert_present mac _ _ p a (wf_sorted _ Hwf) Hf) in Ins.
      injection Ins as <- <- _. exists a. split; [exact Hf|left; reflexivity].
    - destruct (MapFacts.map_insert_absent mac (next_ptr st, new_Agent name mac) _ Hf)
        as (l1 & l2 & Hst & Ins' & Hl1 & _).
      rewrite Ins in Ins'. injection Ins' as -> -> _.
      exists (new_Agent name mac). split.
      + apply MapFacts.map_find_app_here, forall_lt_neq, Hl1.
      + right. repeat split. }
  destruct H1 as (a0 & Hf1 & Hcase).
  exists p1, a0. split; [reflexivity|]. split; [exact Hcase|].
  pose proof (MapFacts.map_update_found mac (AgentCollection.add_update root name ip) m1 p1 a0 Hf1)
    as Hf2.
  assert (Hsame : nameAlreadyExists (agents st') name mac =
                  nameAlreadyExists (map_update mac (AgentCollection.add_update root name ip) m1) name mac).
  { rewrite Hag. destruct (nameAlreadyExists _ name mac) eqn:E; [|exact E].
    rewrite nameAlreadyExists_map_update; [exact E|]. intros a; split; reflexivity. }
  rewrite Hsame, Hag.
  destruct (nameAlreadyExists _ name mac); [|exact Hf2].
  apply MapFacts.map_update_found, Hf2.
Qed.

(** A successful [add] returns the pointer stored at key [mac], new or
    already registered, and the agent there carries the payload's name, mac,
    ip, canSleep, custom, uiClassName, heap and pingPeriod, and is flagged
    for renaming when another mac holds the same name. *)
Theorem add_sets_fields (st st' : AgentCollection.State) (r : option Ptr) (js : string)
    (root : JsonObject) (name mac ip : string) :
  wf st -> parseObject js = Some root ->
  as_cstr (jget root XIOTModuleJsonTag.name) = Some name ->
  as_cstr (jget root XIOTModuleJsonTag.MAC) = Some mac ->
  as_cstr (jget root XIOTModuleJsonTag.ip) = Some ip ->
  add st js = (st', r) ->
  exists p a, r = Some p /\ map_find mac (agents st') = Some (p, a) /\
    a_name a = name /\ a_mac a = mac /\ a_ip a = ip /\
    a_canSleep a = as_bool (jget root XIOTModuleJsonTag.canSleep) /\
    a_custom a = as_cstr (jget root XIOTModuleJsonTag.custom) /\
    a_uiClassName a = as_cstr (jget root XIOTModuleJsonTag.uiClassName) /\
    a_heap a = as_int (jget root XIOTModuleJsonTag.heap) /\
    a_pingPeriod a = as_int (jget root XIOTModuleJsonTag.pingPeriod) /\
    (nameAlreadyExists (agents st') name mac = true -> a_toRename a = true).
Proof.
  intros Hwf Hp Hn Hm Hi Hadd.
  destruct (add_target st st' r js root name mac ip Hwf Hp Hn Hm Hi Hadd)
    as (p & a0 & Hr & Hcase & Hf).
  assert (Hmac : a_mac a0 = mac).
  { destruct Hcase as [Hf0 | (_ & _ & ->)]; [|reflexivity].
    exact (map_find_mac _ _ _ _ (wf_mac _ Hwf) Hf0). }
  eexists p, _. split; [exact Hr|]. split; [exact Hf|].
  destruct (nameAlreadyExists (agents st') name mac); simpl;
    (split; [reflexivity|]); (split; [exact Hmac|]);
    do 6 (split; [reflexivity|]);
    intros H; try reflexivity; discriminate.
Qed.

(** Registering the same payload twice: the second call returns the same
    agent and leaves the map and the cached buffer estimate as the first call
    left them. *)
Theorem add_twice_same (st st1 st2 : AgentCollection.State) (js : string) (p : Ptr)
    (r2 : option Ptr) :
  wf st -> add st js = (st1, Some p) -> add st1 js = (st2, r2) ->
  r2 = Some p /\ agents st2 = agents st1 /\ listBufferSize st2 = listBufferSize st1.
Proof.
  intros Hwf Hadd1 Hadd2.
  destruct (add_some_inv _ _ _ _ Hadd1) as (root & name & mac & ip & Hp & Hn & Hm & Hi).
  pose proof (Invariant.wf_add parseObject LIST_BUFFER_SIZE MAC_ADDR_MAX_LENGTH NAME_MAX_LENGTH
                DOUBLE_IP_MAX_LENGTH UI_CLASS_NAME_MAX_LENGTH st js Hwf) as Hwf1.
  rewrite Hadd1 in Hwf1. simpl in Hwf1.
  destruct (add_target st st1 (Some p) js root name mac ip Hwf Hp Hn Hm Hi Hadd1)
    as (p' & a0 & Hr & _ & Hf1).
  injection Hr as <-.
  destruct (add_success parseObject LIST_BUFFER_SIZE MAC_ADDR_MAX_LENGTH NAME_MAX_LENGTH
              DOUBLE_IP_MAX_LENGTH UI_CLASS_NAME_MAX_LENGTH st1 js root name mac ip Hp Hn Hm Hi)
    as (m1 & p1 & b & Ins & Hr2 & _ & Hag).
  rewrite Hadd2 in Hr2, Hag. simpl in Hr2, Hag. subst r2. cbv zeta in Hag.
  rewrite (MapFacts.map_insert_present mac _ _ _ _ (wf_sorted _ Hwf1) Hf1) in Ins.
  injection Ins as <- <- _.
  assert (Hag' : agents st2 = agents st1).
  { rewrite Hag.
    remember (nameAlreadyExists (agents st1) name mac) as b1 eqn:E1.
    rewrite (map_update_fixed mac _ _ _ _ Hf1)
      by (destruct b1; rewrite ?add_update_eq; reflexivity).
    rewrite <- E1. destruct b1; [|reflexivity].
    apply (map_update_fixed mac _ _ _ _ Hf1). rewrite !add_update_eq. reflexivity. }
  split; [reflexivity|]. split; [exact Hag'|].
  destruct (add_some_inv _ _ _ _ Hadd2) as (_ & _ & _ & _ & _).
  rewrite (add_buffer_size _ _ _ _ Hadd1), (add_buffer_size _ _ _ _ Hadd2).
  unfold AgentCollection.getCount. rewrite Hag'. reflexivity.
Qed.

(** After a successful [add], a [refresh] whose payload carries the same mac
    finds the agent and returns the pointer [add] returned. *)
Theorem add_then_refresh (st st1 : AgentCollection.State) (js js' : string)
    (root root' : JsonObject) (mac : string) (p : Ptr) :
  wf st -> parseObject js = Some root ->
  as_cstr (jget root XIOTModuleJsonTag.MAC) = Some mac ->
  add st js = (st1, Some p) ->
  parseObject js' = Some root' -> as_cstr (jget root' XIOTModuleJsonTag.MAC) = Some mac ->
  (refresh st1 js').2 = Some p.
Proof.
  intros Hwf Hp Hm Hadd Hp' Hm'.
  destruct (add_some_inv _ _ _ _ Hadd) as (root0 & name & mac0 & ip & Hp0 & Hn & Hm0 & Hi).
  rewrite Hp in Hp0. injection Hp0 as <-. rewrite Hm in Hm0. injection Hm0 as <-.
  destruct (add_target st st1 (Some p) js root name mac ip Hwf Hp Hn Hm Hi Hadd)
    as (p' & a0 & Hr & _ & Hf1).
  injection Hr as <-.
  unfold AgentCollection.refresh. rewrite Hp', Hm', Hf1. reflexivity.
Qed.

Lemma refresh_shape (st : AgentCollection.State) (js : string) :
  length (agents (refresh st js).1) = length (agents st) /\
  listBufferSize (refresh st js).1 = listBufferSize st.
Proof.
  unfold AgentCollection.refresh.
  destruct (parseObject js) as [root|]; [|split; reflexivity].
  destruct (as_cstr (jget root XIOTModuleJsonTag.MAC)) as [mac|]; [|split; reflexivity].
  destruct (map_find mac (agents st)) as [[p a]|]; [|split; reflexivity].
  simpl. split; [apply MapFacts.map_update_length|reflexivity].
Qed.

Lemma renameOne_shape (newName0 : string) (st : AgentCollection.State) (p : Ptr) :
  length (agents (renameOne newName0 st p)) = length (agents st) /\
  listBufferSize (renameOne newName0 st p) = listBufferSize st.
Proof.
  unfold AgentCollection.renameOne.
  destruct (ptr_find p (agents st)) as [a|]; [|split; reflexivity].
  destruct (split_name (a_name a)) as [alpha d].
  destruct (AgentCollection.rename_loop _ _ _ _ _ _ _) as [[nn|]|]; try (split; reflexivity).
  simpl. split; [|reflexivity].
  destruct (Invariant.ptr_update_shape p (renameTo nn) (agents st)) as [Hk _].
  apply (f_equal (@length string)) in Hk. rewrite !length_map in Hk. exact Hk.
Qed.

(** Every collection the program reaches is well-formed: its map is sorted
    by mac with no key twice, each agent's mac is its key, and no two entries
    hold the same agent. *)
Theorem reachable_wf (st : AgentCollection.State) : reachable st -> wf st.
Proof.
  induction 1 as [lbs0 p0|st js _ IH|st js _ IH|newName0 st p _ IH].
  - split; simpl; constructor.
  - apply Invariant.wf_add, IH.
  - apply Invariant.refresh_keeps_wf, IH.
  - apply Invariant.renameOne_keeps_wf, IH.
Qed.

(** In every reachable collection with at least one agent, the cached
    [_listBufferSize] is [LIST_BUFFER_SIZE] plus, per agent, the sizes of the
    seven attributes [_refreshListBufferSize] counts. *)
Theorem reachable_buffer_size (st : AgentCollection.State) :
  reachable st -> agents st <> [] ->
  listBufferSize st = (LIST_BUFFER_SIZE + AgentCollection.getCount st *
    (MAC_ADDR_MAX_LENGTH + NAME_MAX_LENGTH + DOUBLE_IP_MAX_LENGTH + UI_CLASS_NAME_MAX_LENGTH + 78))%Z.
Proof.
  induction 1 as [lbs0 p0|st js _ IH|st js _ IH|newName0 st p _ IH]; intros Hne.
  - exfalso. apply Hne. reflexivity.
  - destruct (add st js) as [st' [p|]] eqn:Hadd; simpl in *.
    + exact (add_buffer_size _ _ _ _ Hadd).
    + apply add_none in Hadd. subst st'. apply IH, Hne.
  - destruct (refresh_shape st js) as [Hl Hb].
    unfold AgentCollection.getCount. rewrite Hl, Hb. apply IH.
    intros H. apply Hne. apply length_zero_iff_nil. rewrite Hl, H. reflexivity.
  - destruct (renameOne_shape newName0 st p) as [Hl Hb].
    unfold AgentCollection.getCount. rewrite Hl, Hb. apply IH.
    intros H. apply Hne. apply length_zero_iff_nil. rewrite Hl, H. reflexivity.
Qed.

End Collection.

(** [renameOne] either leaves the collection as it is, or renames the agent
    [p] designates (clearing its flag) to a name that no agent of another mac
    holds in the new collection, and changes nothing else. *)
Theorem renameOne_unchanged_or_unique (NAME_MAX_LENGTH : Z) (newName0 : string)
    (st : AgentCollection.State) (p : Ptr) :
  AgentCollection.renameOne NAME_MAX_LENGTH newName0 st p = st \/
  exists a n, ptr_find p (agents st) = Some a /\
    AgentCollection.renameOne NAME_MAX_LENGTH newName0 st p =
      AgentCollection.mkState (ptr_update p (renameTo n) (agents st)) (next_ptr st) (listBufferSize st) /\
    nameAlreadyExists (agents (AgentCollection.renameOne NAME_MAX_LENGTH newName0 st p)) n (a_mac a) = false.
Proof.
  unfold AgentCollection.renameOne.
  destruct (ptr_find p (agents st)) as [a|] eqn:Hp; [|left; reflexivity].
  destruct (split_name (a_name a)) as [alpha d].
  destruct (AgentCollection.rename_loop _ _ _ _ _ _ _) as [[nn|]|] eqn:Hres;
    [|left; reflexivity|left; reflexivity].
  right. exists a, nn. split; [reflexivity|]. split; [reflexivity|].
  destruct (rename_loop_found _ _ _ _ _ _ _ _ Hres) as (k & _ & _ & Hfree & _).
  simpl. apply nameAlreadyExists_ptr_update; assumption.
Qed.

(** The buffer [list()] allocates for a non-empty collection is the cached
    estimate plus the length of the [custom] of the last agent, in mac order,
    that has one (nothing when none has). *)
Theorem list_buffer_size (st : AgentCollection.State) :
  agents st <> [] ->
  (AgentCollection.list st).2 = (listBufferSize st +
    match rev (flat_map (fun e : entry => match a_custom e.2.2 with Some c => [c] | None => [] end)
                 (agents st)) with
    | c :: _ => Z.of_nat (String.length c)
    | [] => 0
    end)%Z.
Proof.
  intros Hne. unfold AgentCollection.list, AgentCollection.getCount.
  assert (Hc : (Z.of_nat (length (agents st)) =? 0)%Z = false).
  { apply Z.eqb_neq. intros H. apply Hne, length_zero_iff_nil. lia. }
  rewrite Hc.
  pose proof (list_loop_custom (agents st) [] 0) as Hl.
  destruct (AgentCollection.list_loop (agents st) [] 0) as [root cs]. simpl in *.
  rewrite Hl, fold_last_custom. reflexivity.
Qed.

(** On a well-formed collection, [reset()] invokes [Agent::reset()] exactly
    once on each registered agent, and on nothing else. *)
Theorem reset_each_agent_once (st : AgentCollection.State) :
  wf st ->
  List.NoDup (AgentCollection.reset st) /\
  length (AgentCollection.reset st) = length (agents st) /\
  (forall p, In p (AgentCollection.reset st) <-> exists a, ptr_find p (agents st) = Some a).
Proof.
  intros Hwf. unfold AgentCollection.reset.
  split; [apply (wf_ptrs _ Hwf)|]. split; [apply length_map|].
  intros p. symmetry. apply ptr_find_ptrs.
Qed.

(** On a well-formed collection, [ping()] invokes [Agent::ping()] at most
    once per agent, exactly on the agents that cannot sleep and whose
    [pingPeriod] is not 0. *)
Theorem ping_each_selected_once (st : AgentCollection.State) :
  wf st ->
  List.NoDup (AgentCollection.ping st) /\
  (forall p, In p (AgentCollection.ping st) <->
     exists a, ptr_find p (agents st) = Some a /\ a_canSleep a = false /\ a_pingPeriod a <> 0%Z).
Proof.
  intros Hwf. split; [apply ping_nodup, (wf_ptrs _ Hwf)|].
  intros p. rewrite ping_invokes_iff. split.
  - intros (e & Hin & <- & Hc & Hz). exists e.2.2.
    split; [apply in_ptr_find; [apply (wf_ptrs _ Hwf)|exact Hin]|auto].
  - intros (a & Hf & Hc & Hz). destruct (ptr_find_in _ _ _ Hf) as [k Hin].
    exists (k, (p, a)). auto.
Qed.

End More.

(** The spec's example: with "Lamp" on AA:AA, the conflicting agent on
    BB:BB is renamed "Lamp_1", and a further one on CC:CC "Lamp_2". *)
Example rename_lamp_sequence :
  option_map a_name (ptr_find 2 (AgentCollection.agents stAB)) = Some "Lamp" /\
  option_map a_toRename (ptr_find 2 (AgentCollection.agents stAB)) = Some true /\
  option_map a_name (ptr_find 2 (AgentCollection.agents (demo_rename stAB 2))) = Some "Lamp_1" /\
  option_map a_toRename (ptr_find 2 (AgentCollection.agents (demo_rename stAB 2))) = Some false /\
  option_map a_name (ptr_find 3 (AgentCollection.agents (demo_rename stABC 3))) = Some "Lamp_2".
Proof. vm_compute. repeat split. Qed.

(** C4, counterexample: the split is done by [strtok] on the FIRST ["_"],
    not on the last numeric suffix. For "My_Lamp_3" the code takes base
    "My" and digit [atoi("Lamp") = 0], so the conflicting agent on BB:BB is
    renamed "My_1", where a split on the last suffix gives "My_Lamp_4". *)
Lemma renameOne_splits_on_first_underscore :
  split_name "My_Lamp_3" = ("My", 0%Z) /\
  option_map a_name (ptr_find 2 (AgentCollection.agents stMy)) = Some "My_Lamp_3" /\
  option_map a_name (ptr_find 2 (AgentCollection.agents (demo_rename stMy 2))) = Some "My_1" /\
  "My_1" <> "My_Lamp_4".
Proof. split; [reflexivity|]. split; [vm_compute; reflexivity|]. split; [vm_compute; reflexivity|discriminate]. Qed.

(** * Witnesses *)

Lemma add_one_agent_per_mac_witness :
  wf stA /\ map_find "BB:BB" (AgentCollection.agents stA) = None /\
  AgentCollection.add demo_parse 10 17 20 31 20 stA "lampB" = (stAB, Some 2%nat) /\
  (Some 2%nat = Some (AgentCollection.next_ptr stA) /\
   ptr_find (AgentCollection.next_ptr stA) (AgentCollection.agents stA) = None /\
   length (AgentCollection.agents stAB) = S (length (AgentCollection.agents stA)) /\
   (exists a, map_find "BB:BB" (AgentCollection.agents stAB) = Some (AgentCollection.next_ptr stA, a)) /\
   (forall k, k <> "BB:BB" ->
      map_find k (AgentCollection.agents stAB) = map_find k (AgentCollection.agents stA))).
Proof.
  assert (Hwf : wf stA) by (apply Invariant.wf_add, Invariant.wf_empty).
  assert (Hadd : AgentCollection.add demo_parse 10 17 20 31 20 stA "lampB" = (stAB, Some 2%nat)) by (vm_compute; reflexivity).
  split; [exact Hwf|]. split; [vm_compute; reflexivity|]. split; [exact Hadd|].
  apply (proj1 (add_one_agent_per_mac demo_parse 10 17 20 31 20 stA stAB (Some 2%nat)
                  "lampB" (payload "Lamp" "BB:BB" "10.0.0.2" []) "Lamp" "BB:BB" "10.0.0.2"
                  Hwf ltac:(vm_compute; reflexivity) ltac:(vm_compute; reflexivity)
                  ltac:(vm_compute; reflexivity) ltac:(vm_compute; reflexivity) Hadd)).
  vm_compute. reflexivity.
Defined.

Lemma failed_calls_keep_state_witness :
  demo_parse "garbage" = None /\ demo_add stA "garbage" = (stA, None) /\
  demo_parse "lampB" = Some (payload "Lamp" "BB:BB" "10.0.0.2" []) /\
  map_find "BB:BB" (AgentCollection.agents stA) = None /\
  AgentCollection.refresh demo_parse stA "lampB" = (stA, None).
Proof.
  destruct (failed_calls_keep_state demo_parse 10 17 20 31 20 stA "garbage") as [Hadd _].
  destruct (failed_calls_keep_state demo_parse 10 17 20 31 20 stA "lampB") as [_ Href].
  split; [reflexivity|]. split; [apply Hadd; left; reflexivity|].
  split; [reflexivity|]. split; [vm_compute; reflexivity|].
  apply Href. right. eexists. split; [reflexivity|].
  right. exists "BB:BB". split; [reflexivity|vm_compute; reflexivity].
Defined.

Lemma refresh_only_custom_witness :
  exists a, map_find "AA:AA" (AgentCollection.agents stA) = Some (1%nat, a) /\
  exists l1 l2,
    AgentCollection.agents stA = l1 ++ ("AA:AA", (1%nat, a)) :: l2 /\
    AgentCollection.refresh demo_parse stA "refreshA" =
      (AgentCollection.mkState
         (l1 ++ ("AA:AA", (1%nat, mkAgent (a_name a) (a_mac a) (a_ip a) (a_canSleep a)
                                (Some "on") (a_uiClassName a) (a_heap a) (a_pingPeriod a)
                                (a_pong a) (a_toRename a))) :: l2)
         (AgentCollection.next_ptr stA) (AgentCollection.listBufferSize stA),
       Some 1%nat).
Proof.
  eexists. split; [vm_compute; reflexivity|].
  apply (refresh_only_custom demo_parse stA "refreshA"
           [(XIOTModuleJsonTag.MAC, JStr "AA:AA"); (XIOTModuleJsonTag.custom, JStr "on")]
           "AA:AA" 1%nat); reflexivity.
Defined.

Lemma add_keeps_rename_flag_witness :
  wf stAB /\
  (exists a, map_find "BB:BB" (AgentCollection.agents stAB) = Some (2%nat, a) /\ a_toRename a = true) /\
  nameAlreadyExists (AgentCollection.agents stAB) "Plug" "BB:BB" = false /\
  exists a', map_find "BB:BB" (AgentCollection.agents (AgentCollection.add demo_parse 10 17 20 31 20 stAB "plugB").1) = Some (2%nat, a') /\
    a_toRename a' = true.
Proof.
  assert (Hwf : wf stAB) by (apply Invariant.wf_add, Invariant.wf_add, Invariant.wf_empty).
  split; [exact Hwf|].
  split; [eexists; split; [vm_compute; reflexivity|reflexivity]|].
  split; [vm_compute; reflexivity|].
  destruct (map_find "BB:BB" (AgentCollection.agents stAB)) as [[p a]|] eqn:Hf;
    [|vm_compute in Hf; discriminate].
  assert (Hpa : p = 2%nat /\ a_toRename a = true)
    by (vm_compute in Hf; injection Hf as <- <-; split; reflexivity).
  destruct Hpa as [-> Hflag].
  destruct (AgentCollection.add demo_parse 10 17 20 31 20 stAB "plugB") as [st' r] eqn:Hadd.
  destruct (add_keeps_rename_flag demo_parse 10 17 20 31 20 stAB st' r "plugB"
              (payload "Plug" "BB:BB" "10.0.0.2" []) "Plug" "BB:BB" "10.0.0.2" 2%nat a
              Hwf ltac:(vm_compute; reflexivity) ltac:(vm_compute; reflexivity)
              ltac:(vm_compute; reflexivity) ltac:(vm_compute; reflexivity) Hf
              ltac:(vm_compute; reflexivity) Hadd)
    as (a' & Ha' & Hfl).
  exists a'. simpl. split; [exact Ha'|]. rewrite Hfl. exact Hflag.
Defined.

Lemma renameOne_first_free_witness :
  exists a, ptr_find 3 (AgentCollection.agents stABC) = Some a /\
    split_name (a_name a) = ("Lamp", 0%Z) /\
    nameAlreadyExists (AgentCollection.agents stABC) (candidate "Lamp" (0 + 1)) (a_mac a) = true /\
    AgentCollection.agents (demo_rename stABC 3) =
      ptr_update 3 (renameTo (candidate "Lamp" (0 + 2))) (AgentCollection.agents stABC).
Proof.
  eexists. split; [vm_compute; reflexivity|].
  split; [reflexivity|]. split; [vm_compute; reflexivity|].
  eapply (renameOne_first_free 20 "" stABC 3%nat _ "Lamp" 0 2).
  - vm_compute. reflexivity.
  - reflexivity.
  - lia.
  - vm_compute. reflexivity.
  - intros j Hj. assert (j = 1%Z \/ j = 2%Z) as [-> | ->] by lia; vm_compute; reflexivity.
  - intros j Hj. assert (j = 1%Z) as -> by lia. vm_compute; reflexivity.
  - vm_compute. reflexivity.
Defined.

(** Agent 2 of [stLong] is flagged; its first candidate "ABCDEFGHIJKLMNOPQRS_1"
    has 21 characters, over the bound of 20, and [renameOne] gives it to the
    agent. *)
Lemma renameOne_overlong_accepted_witness :
  option_map a_toRename (ptr_find 2 (AgentCollection.agents stLong)) = Some true /\
  exists a', ptr_find 2 (AgentCollection.agents (demo_rename stLong 2)) = Some a' /\
    a_name a' = candidate "ABCDEFGHIJKLMNOPQRS" (0 + 1) /\
    (20 < Z.of_nat (String.length (a_name a')))%Z /\
    a_toRename a' = false.
Proof.
  split; [vm_compute; reflexivity|].
  eapply (renameOne_overlong_accepted 20 "" stLong 2%nat _ "ABCDEFGHIJKLMNOPQRS" 0);
    vm_compute; reflexivity.
Defined.

Lemma list_output_truncated_witness :
  wf stHuge /\ AgentCollection.agents stHuge <> [] /\
  (AgentCollection.list stHuge).2 = 343%Z /\
  Z.of_nat (String.length (serialize (listing stHuge))) = 522%Z /\
  (AgentCollection.list stHuge).1 =
    str_take ((AgentCollection.list stHuge).2 - 2) (serialize (listing stHuge)) /\
  Z.of_nat (String.length ((AgentCollection.list stHuge).1)) = ((AgentCollection.list stHuge).2 - 2)%Z /\
  (AgentCollection.list stHuge).1 <> serialize (listing stHuge).
Proof.
  assert (Hwf : wf stHuge) by (apply Invariant.wf_add, Invariant.wf_add, Invariant.wf_empty).
  assert (Hne : AgentCollection.agents stHuge <> []) by (vm_compute; discriminate).
  assert (Hsz : (AgentCollection.list stHuge).2 = 343%Z) by (vm_compute; reflexivity).
  assert (Hser : Z.of_nat (String.length (serialize (listing stHuge))) = 522%Z)
    by (vm_compute; reflexivity).
  split; [exact Hwf|]. split; [exact Hne|]. split; [exact Hsz|]. split; [exact Hser|].
  apply (list_output_truncated stHuge Hwf Hne); rewrite ?Hsz, ?Hser; lia.
Defined.

Lemma ping_skips_sleepers_witness :
  wf stAS /\
  exists e, In e (AgentCollection.agents stAS) /\ e.2.1 = 2%nat /\ a_canSleep e.2.2 = true /\
    ~ In e.2.1 (AgentCollection.ping stAS).
Proof.
  assert (Hwf : wf stAS) by (apply Invariant.wf_add, Invariant.wf_add, Invariant.wf_empty).
  split; [exact Hwf|].
  destruct (AgentCollection.agents stAS) as [|e1 [|e2 l]] eqn:Hl; try (vm_compute in Hl; discriminate).
  exists e2.
  assert (He2 : e2.1 = "CC:CC" /\ e2.2.1 = 2%nat /\ a_canSleep e2.2.2 = true)
    by (vm_compute in Hl; injection Hl as _ <- _; repeat split).
  destruct He2 as (_ & Hp & Hc).
  assert (Hin : In e2 (AgentCollection.agents stAS)) by (rewrite Hl; right; left; reflexivity).
  split; [right; left; reflexivity|]. split; [exact Hp|]. split; [exact Hc|].
  exact (ping_skips_sleepers stAS e2 Hwf Hin Hc).
Defined.

Lemma wf_refresh_witness :
  wf stA /\ AgentCollection.refresh demo_parse stA "refreshA" <> (stA, None) /\
  wf (AgentCollection.refresh demo_parse stA "refreshA").1.
Proof.
  assert (Hwf : wf stA) by (apply Invariant.wf_add, Invariant.wf_empty).
  split; [exact Hwf|]. split; [vm_compute; discriminate|].
  exact (Invariant.wf_refresh demo_parse stA "refreshA" Hwf).
Defined.

Lemma wf_renameOne_witness :
  wf stAB /\ AgentCollection.renameOne 20 "" stAB 2 <> stAB /\
  wf (AgentCollection.renameOne 20 "" stAB 2).
Proof.
  assert (Hwf : wf stAB) by (apply Invariant.wf_add, Invariant.wf_add, Invariant.wf_empty).
  split; [exact Hwf|]. split; [vm_compute; discriminate|].
  exact (Invariant.wf_renameOne 20 "" stAB 2 Hwf).
Defined.

Local Abbreviation dadd := (AgentCollection.add demo_parse 10 17 20 31 20).

Lemma add_sets_fields_witness :
  wf stA /\ dadd stA "lampB" = (stAB, Some 2%nat) /\
  exists a, map_find "BB:BB" (AgentCollection.agents stAB) = Some (2%nat, a) /\
    a_name a = "Lamp" /\ a_ip a = "10.0.0.2" /\ a_toRename a = true.
Proof.
  assert (Hwf : wf stA) by (apply Invariant.wf_add, Invariant.wf_empty).
  assert (Hadd : dadd stA "lampB" = (stAB, Some 2%nat)) by (vm_compute; reflexivity).
  split; [exact Hwf|]. split; [exact Hadd|].
  destruct (More.add_sets_fields demo_parse 10 17 20 31 20 stA stAB (Some 2%nat) "lampB"
              (payload "Lamp" "BB:BB" "10.0.0.2" []) "Lamp" "BB:BB" "10.0.0.2"
              Hwf ltac:(vm_compute; reflexivity) ltac:(vm_compute; reflexivity)
              ltac:(vm_compute; reflexivity) ltac:(vm_compute; reflexivity) Hadd)
    as (p & a & Hr & Hf & Hn & _ & Hi & _ & _ & _ & _ & _ & Hflag).
  injection Hr as <-. exists a. split; [exact Hf|]. split; [exact Hn|]. split; [exact Hi|].
  apply Hflag. vm_compute. reflexivity.
Defined.

Lemma add_twice_same_witness :
  wf stA /\ dadd stA "lampB" = (stAB, Some 2%nat) /\
  (dadd stAB "lampB").2 = Some 2%nat /\
  AgentCollection.agents (dadd stAB "lampB").1 = AgentCollection.agents stAB /\
  AgentCollection.listBufferSize (dadd stAB "lampB").1 = AgentCollection.listBufferSize stAB.
Proof.
  assert (Hwf : wf stA) by (apply Invariant.wf_add, Invariant.wf_empty).
  assert (Hadd : dadd stA "lampB" = (stAB, Some 2%nat)) by (vm_compute; reflexivity).
  split; [exact Hwf|]. split; [exact Hadd|].
  exact (More.add_twice_same demo_parse 10 17 20 31 20 stA stAB _ "lampB" 2%nat _
           Hwf Hadd (surjective_pairing _)).
Defined.

Lemma add_then_refresh_witness :
  dadd empty_collection "lampA" = (stA, Some 1%nat) /\
  (AgentCollection.refresh demo_parse stA "refreshA").2 = Some 1%nat.
Proof.
  assert (Hadd : dadd empty_collection "lampA" = (stA, Some 1%nat)) by (vm_compute; reflexivity).
  split; [exact Hadd|].
  exact (More.add_then_refresh demo_parse 10 17 20 31 20 empty_collection stA "lampA" "refreshA"
           (payload "Lamp" "AA:AA" "10.0.0.1" [])
           [(XIOTModuleJsonTag.MAC, JStr "AA:AA"); (XIOTModuleJsonTag.custom, JStr "on")]
           "AA:AA" 1%nat Invariant.wf_empty ltac:(vm_compute; reflexivity)
           ltac:(vm_compute; reflexivity) Hadd ltac:(vm_compute; reflexivity)
           ltac:(vm_compute; reflexivity)).
Defined.

Lemma reachable_wf_witness :
  reachable demo_parse 10 17 20 31 20 stABC /\ wf stABC.
Proof.
  assert (Hr : reachable demo_parse 10 17 20 31 20 stABC).
  { unfold stABC, stAB, stA, demo_add, demo_rename.
    apply reach_add, reach_rename, reach_add, reach_add.
    exact (reach_new demo_parse 10 17 20 31 20 0 1). }
  split; [exact Hr|].
  exact (More.reachable_wf demo_parse 10 17 20 31 20 stABC Hr).
Defined.

Lemma reachable_buffer_size_witness :
  reachable demo_parse 10 17 20 31 20 stABC /\ AgentCollection.agents stABC <> [] /\
  AgentCollection.getCount stABC = 3%Z /\
  AgentCollection.listBufferSize stABC =
    (10 + AgentCollection.getCount stABC * (17 + 20 + 31 + 20 + 78))%Z.
Proof.
  assert (Hr : reachable demo_parse 10 17 20 31 20 stABC).
  { unfold stABC, stAB, stA, demo_add, demo_rename.
    apply reach_add, reach_rename, reach_add, reach_add.
    exact (reach_new demo_parse 10 17 20 31 20 0 1). }
  assert (Hne : AgentCollection.agents stABC <> []) by (vm_compute; discriminate).
  split; [exact Hr|]. split; [exact Hne|]. split; [vm_compute; reflexivity|].
  exact (More.reachable_buffer_size demo_parse 10 17 20 31 20 stABC Hr Hne).
Defined.

Lemma list_buffer_size_witness :
  AgentCollection.agents stCustom <> [] /\
  (AgentCollection.list stCustom).2 = (AgentCollection.listBufferSize stCustom + 1)%Z.
Proof.
  assert (Hne : AgentCollection.agents stCustom <> []) by (vm_compute; discriminate).
  split; [exact Hne|].
  rewrite (More.list_buffer_size stCustom Hne). vm_compute. reflexivity.
Defined.

Lemma reset_each_agent_once_witness :
  wf stAB /\ AgentCollection.reset stAB = [1%nat; 2%nat] /\ List.NoDup (AgentCollection.reset stAB).
Proof.
  assert (Hwf : wf stAB) by (apply Invariant.wf_add, Invariant.wf_add, Invariant.wf_empty).
  split; [exact Hwf|]. split; [vm_compute; reflexivity|].
  exact (proj1 (More.reset_each_agent_once stAB Hwf)).
Defined.

Lemma ping_each_selected_once_witness :
  wf stPing /\ AgentCollection.ping stPing = [1%nat] /\ List.NoDup (AgentCollection.ping stPing).
Proof.
  assert (Hwf : wf stPing) by (apply Invariant.wf_add, Invariant.wf_add, Invariant.wf_empty).
  split; [exact Hwf|]. split; [vm_compute; reflexivity|].
  exact (proj1 (More.ping_each_selected_once stPing Hwf)).
Defined.
